(** * The conversation engine of the A2UI Angular client

    A shallow embedding of [src/app.component.ts] (class [AppComponent]):
    the signals of the component are the fields of a record, every method
    is a function on that record which also returns the calls it makes to
    its collaborators, and the two [async] methods are cut at their
    [await] into the part that runs at once and the two ways the awaited
    promise can settle.

    The JavaScript values the code handles are modelled as the language
    defines them: a string is a sequence of UTF-16 code units, a number
    is an IEEE 754 binary64 value, an object is a table of own
    properties kept in creation order whose keys are listed array
    indices first, and [JSON.stringify] is the serializer of ECMA-262. *)

From Stdlib Require Import List Bool Arith NArith ZArith Lia String Ascii.
From Stdlib Require Import DecimalString Permutation Sorted.
Import ListNotations.

Set Implicit Arguments.
Set Warnings "-register-all".
Local Open Scope N_scope.
Local Open Scope list_scope.

(** ** JavaScript strings *)

Module JS.

(** A string is the list of its UTF-16 code units. *)
Definition jsstring : Type := list N.

(** An ASCII literal of the source as a JavaScript string. *)
Definition lit (s : string) : jsstring :=
  map N_of_ascii (list_ascii_of_string s).

Definition jseq (a b : jsstring) : bool :=
  if list_eq_dec N.eq_dec a b then true else false.

(** [ToBoolean] on a string: only the empty string is falsy. *)
Definition truthy (s : jsstring) : bool :=
  match s with [] => false | _ :: _ => true end.

(** [a || b] where [a] is a string that may be [undefined]. *)
Definition or_else (a : option jsstring) (b : jsstring) : jsstring :=
  match a with
  | Some s => if truthy s then s else b
  | None => b
  end.

(** [a || b] where both sides may be [undefined]. *)
Definition or_else_opt (a b : option jsstring) : option jsstring :=
  match a with
  | Some s => if truthy s then Some s else b
  | None => b
  end.

(** The code units [String.prototype.trim] strips: WhiteSpace and
    LineTerminator of ECMA-262 (TAB, LF, VT, FF, CR, SP, NBSP, the
    space separators of Unicode, LS, PS and the byte order mark). *)
Definition isWhiteSpace (c : N) : bool :=
  (9 <=? c) && (c <=? 13)
  || (c =? 32) || (c =? 160) || (c =? 5760)
  || (8192 <=? c) && (c <=? 8202)
  || (c =? 8232) || (c =? 8233) || (c =? 8239) || (c =? 8287)
  || (c =? 12288) || (c =? 65279).

Fixpoint trimStart (s : jsstring) : jsstring :=
  match s with
  | [] => []
  | c :: r => if isWhiteSpace c then trimStart r else s
  end.

Definition trimEnd (s : jsstring) : jsstring := rev (trimStart (rev s)).

Definition trim (s : jsstring) : jsstring := trimEnd (trimStart s).

(** [Array.prototype.join] on strings. *)
Fixpoint join (sep : jsstring) (l : list jsstring) : jsstring :=
  match l with
  | [] => []
  | [x] => x
  | x :: r => x ++ sep ++ join sep r
  end.

(** *** Objects

    An ordinary object with string keys and data properties only: the
    table of its own properties in the order they were created. *)
Definition JsObject (V : Type) : Type := list (jsstring * V).

Definition digit (c : N) : option N :=
  if (48 <=? c) && (c <=? 57) then Some (c - 48) else None.

Fixpoint digits_value (acc : N) (s : jsstring) : option N :=
  match s with
  | [] => Some acc
  | c :: r =>
      match digit c with
      | Some d => digits_value (10 * acc + d) r
      | None => None
      end
  end.

(** A key is an array index when it is the canonical decimal numeral of
    an integer below 2^32 - 1. *)
Definition array_index (k : jsstring) : option N :=
  match k with
  | [] => None
  | c :: r =>
      if (c =? 48) && truthy r then None
      else match digits_value 0 k with
           | Some n => if n <? 4294967295 then Some n else None
           | None => None
           end
  end.

Definition is_index (k : jsstring) : bool :=
  match array_index k with Some _ => true | None => false end.

Section OwnKeys.
Variable V : Type.

Fixpoint insert_by_index (n : N) (kv : jsstring * V)
    (l : list (N * (jsstring * V))) : list (N * (jsstring * V)) :=
  match l with
  | [] => [(n, kv)]
  | (m, kv') :: r =>
      if n <=? m then (n, kv) :: l else (m, kv') :: insert_by_index n kv r
  end.

Fixpoint indexed (o : JsObject V) : list (N * (jsstring * V)) :=
  match o with
  | [] => []
  | kv :: r =>
      match array_index (fst kv) with
      | Some n => insert_by_index n kv (indexed r)
      | None => indexed r
      end
  end.

Definition named (o : JsObject V) : JsObject V :=
  filter (fun kv => negb (is_index (fst kv))) o.

(** [Object.entries]: OrdinaryOwnPropertyKeys lists the array indices
    in ascending numeric order, then the other keys in the order the
    properties were created. *)
Definition Object_entries (o : JsObject V) : list (jsstring * V) :=
  map snd (indexed o) ++ named o.

Definition Object_keys (o : JsObject V) : list jsstring :=
  map fst (Object_entries o).

(** CreateDataProperty: an existing property keeps its place and takes
    the new value, a new one is created last. *)
Fixpoint obj_set (o : JsObject V) (k : jsstring) (v : V) : JsObject V :=
  match o with
  | [] => [(k, v)]
  | (k', v') :: r =>
      if jseq k' k then (k', v) :: r else (k', v') :: obj_set r k v
  end.

(** The spread [{...src}] into [target]: CopyDataProperties walks the
    own keys of [src] in their listing order. *)
Definition obj_spread (target src : JsObject V) : JsObject V :=
  fold_left (fun o kv => obj_set o (fst kv) (snd kv))
            (Object_entries src) target.
(** An entry tagged with the array index its key denotes. *)
Definition tagged (x : N * (jsstring * V)) : Prop :=
  array_index (fst (snd x)) = Some (fst x).

Definition le_index (x y : N * (jsstring * V)) : Prop := fst x <= fst y.

(** An entry whose key is not an array index. *)
Definition unindexed (kv : jsstring * V) : Prop :=
  is_index (fst kv) = false.

(** The listing order: array indices in ascending order, then the
    other keys. *)
Definition own_key_order (o : JsObject V) : Prop :=
  exists l s, o = map snd l ++ s
              /\ StronglySorted le_index l /\ Forall tagged l
              /\ Forall unindexed s.
End OwnKeys.

Arguments tagged {V} x.
Arguments le_index {V} x y.
Arguments unindexed {V} kv.

(** The same key with the value changed by [f]. *)
Definition on_values (V W : Type) (f : V -> W) (kv : jsstring * V)
    : jsstring * W :=
  (fst kv, f (snd kv)).

End JS.
Export JS.

(** ** Numbers *)

Module IEEE.

Local Open Scope Z_scope.

(** A Number is an IEEE 754 binary64 value, kept as its 64 bits: the
    sign, eleven bits of exponent and fifty-two bits of fraction. *)
Definition Number : Type := N.

(** A Number that is neither zero, infinite nor NaN is, up to its sign,
    [m * 2^e] for an integer [m > 0]. *)
Inductive Decoded : Type :=
| NaN
| Infinity (negative : bool)
| Zero (negative : bool)
| Finite (negative : bool) (m e : Z).

Definition decode (x : Number) : Decoded :=
  let bits := Z.of_N x mod 2 ^ 64 in
  let negative := 0 <? bits / 2 ^ 63 in
  let exponent := (bits / 2 ^ 52) mod 2 ^ 11 in
  let fraction := bits mod 2 ^ 52 in
  if exponent =? 2047 then
    if fraction =? 0 then Infinity negative else NaN
  else if exponent =? 0 then
    if fraction =? 0 then Zero negative else Finite negative fraction (-1074)
  else Finite negative (2 ^ 52 + fraction) (exponent - 1075).

(** The Number of an integer that a binary64 holds exactly (below 2^53
    in absolute value): the inverse of [decode] there. *)
Definition of_Z (z : Z) : Number :=
  let a := Z.abs z in
  if a =? 0 then 0%N
  else
    let b := Z.log2 a in
    let fraction := a * 2 ^ (52 - b) - 2 ^ 52 in
    Z.to_N ((if z <? 0 then 2 ^ 63 else 0) + (b + 1023) * 2 ^ 52 + fraction).

(** [s * 10^q] compared with [b * 2^e], in integers. *)
Definition compare_scaled (s q b e : Z) : comparison :=
  (s * 10 ^ Z.max q 0 * 2 ^ Z.max (- e) 0)
  ?= (b * 2 ^ Z.max e 0 * 10 ^ Z.max (- q) 0).

(** The largest [q' <= q] with [10^q' <= b * 2^e]. *)
Fixpoint floor_log10 (fuel : nat) (q b e : Z) : Z :=
  match fuel with
  | O => q
  | S fuel =>
      match compare_scaled 1 q b e with
      | Gt => floor_log10 fuel (q - 1) b e
      | _ => q
      end
  end.

(** The decimals with [k] digits that the Number reads back from.  The
    Number is [x * 2^e]; every real strictly between [lo * 2^e] and
    [hi * 2^e] rounds to it, and so do the two bounds when [closed]
    (ties go to the even significand).  Of the multiple of [10^q] below
    the Number and the one above, the result is the one in the interval,
    the closer one when both are, the even one when they are as close. *)
Definition candidate (x lo hi e : Z) (closed : bool) (e10 k : Z)
    : option (Z * Z) :=
  let q := e10 - k + 1 in
  let below :=
    (x * 2 ^ Z.max e 0 * 10 ^ Z.max (- q) 0)
    / (10 ^ Z.max q 0 * 2 ^ Z.max (- e) 0) in
  let above := below + 1 in
  let below_ok :=
    match compare_scaled below q lo e with
    | Gt => true | Eq => closed | Lt => false
    end in
  let above_ok :=
    match compare_scaled above q hi e with
    | Lt => true | Eq => closed | Gt => false
    end in
  match below_ok, above_ok with
  | false, false => None
  | true, false => Some (below, q)
  | false, true => Some (above, q)
  | true, true =>
      match compare_scaled (below + above) q (2 * x) e with
      | Gt => Some (below, q)
      | Lt => Some (above, q)
      | Eq => Some (if Z.even below then below else above, q)
      end
  end.

(** The first [k], counting up from [k], that has a candidate. *)
Fixpoint shortest (fuel : nat) (x lo hi e : Z) (closed : bool) (e10 k : Z)
    : Z * Z :=
  match fuel with
  | O => (x, e)
  | S fuel =>
      match candidate x lo hi e closed e10 k with
      | Some sq => sq
      | None => shortest fuel x lo hi e closed e10 (k + 1)
      end
  end.

(** [s * 10^q] with the zeros at the end of [s] moved into [q]. *)
Fixpoint strip_zeros (fuel : nat) (s q : Z) : Z * Z :=
  match fuel with
  | O => (s, q)
  | S fuel =>
      if (s mod 10 =? 0) && (0 <? s) then strip_zeros fuel (s / 10) (q + 1)
      else (s, q)
  end.

(** The digits [s] and the exponent [q] of the shortest decimal
    [s * 10^q] that reads back as the positive Number [m * 2^e]; of the
    shortest ones, the closest to it.  The interval of the reals that
    round to the Number reaches half way to its neighbours, the lower
    one being twice as near when the Number is a power of two above the
    smallest normal one.  The search for the decimal exponent starts
    just above it: the Number is below [2^(log2 m + e + 1)], and
    [log10 2] is 0.30103 to five places. *)
Definition shortest_decimal (m e : Z) : Z * Z :=
  let x := 4 * m in
  let hi := 4 * m + 2 in
  let lo :=
    if (m =? 2 ^ 52) && (-1074 <? e) then 4 * m - 1 else 4 * m - 2 in
  let closed := Z.even m in
  let e10 :=
    floor_log10 700 ((Z.log2 m + e + 1) * 30103 / 100000 + 2) x (e - 2) in
  let '(s, q) := shortest 17 x lo hi (e - 2) closed e10 1 in
  strip_zeros 400 s q.

Definition decimal (z : Z) : jsstring :=
  lit (NilZero.string_of_uint (N.to_uint (Z.to_N z))).

(** Number::toString for the positive Number [m * 2^e]: with [k]
    digits and the decimal point after the [n]-th, plain digits when
    [k <= n <= 21], digits with a point when [0 < n <= 21], a fraction
    with leading zeros when [-6 < n <= 0], and otherwise the exponent
    form. *)
Definition toString_positive (m e : Z) : jsstring :=
  let '(s, q) := shortest_decimal m e in
  let digits := decimal s in
  let k := Z.of_nat (List.length digits) in
  let n := q + k in
  if (k <=? n) && (n <=? 21) then
    digits ++ repeat 48%N (Z.to_nat (n - k))
  else if (0 <? n) && (n <=? 21) then
    firstn (Z.to_nat n) digits ++ lit "." ++ skipn (Z.to_nat n) digits
  else if (-6 <? n) && (n <=? 0) then
    lit "0." ++ repeat 48%N (Z.to_nat (- n)) ++ digits
  else
    let exponent :=
      lit "e" ++ (if n - 1 <? 0 then lit "-" else lit "+")
      ++ decimal (Z.abs (n - 1)) in
    match digits with
    | [] => []
    | [d] => [d] ++ exponent
    | d :: rest => [d] ++ lit "." ++ rest ++ exponent
    end.

(** Number::toString. *)
Definition Number_toString (x : Number) : jsstring :=
  match decode x with
  | NaN => lit "NaN"
  | Infinity negative =>
      (if negative then lit "-" else []) ++ lit "Infinity"
  | Zero _ => lit "0"
  | Finite negative m e =>
      (if negative then lit "-" else []) ++ toString_positive m e
  end.

(** The text of a Number in JSON: [null] when it is not finite. *)
Definition Number_toJSON (x : Number) : jsstring :=
  match decode x with
  | NaN | Infinity _ => lit "null"
  | _ => Number_toString x
  end.

End IEEE.
Export IEEE.

(** ** [JSON.stringify] *)

Module JSON.

(** The values the serializer is given here: JSON data. *)
Inductive JsValue : Type :=
| JNull
| JBool (b : bool)
| JNum (x : Number)
| JStr (s : jsstring)
| JArr (elements : list JsValue)
| JObj (props : JsObject JsValue).

Definition hex_digit (n : N) : N :=
  if n <? 10 then 48 + n else 87 + n.

(** UnicodeEscape: a backslash, [u] and four lowercase hexadecimal digits. *)
Definition UnicodeEscape (c : N) : jsstring :=
  [92; 117;
   hex_digit ((c / 4096) mod 16); hex_digit ((c / 256) mod 16);
   hex_digit ((c / 16) mod 16); hex_digit (c mod 16)].

Definition is_high_surrogate (c : N) : bool := (55296 <=? c) && (c <=? 56319).
Definition is_low_surrogate (c : N) : bool := (56320 <=? c) && (c <=? 57343).

(** The text of one code point that is not part of a surrogate pair. *)
Definition quote_unit (c : N) : jsstring :=
  if c =? 8 then [92; 98]
  else if c =? 9 then [92; 116]
  else if c =? 10 then [92; 110]
  else if c =? 12 then [92; 102]
  else if c =? 13 then [92; 114]
  else if c =? 34 then [92; 34]
  else if c =? 92 then [92; 92]
  else if (c <? 32) || is_high_surrogate c || is_low_surrogate c
       then UnicodeEscape c
  else [c].

Fixpoint quote_body (s : jsstring) : jsstring :=
  match s with
  | [] => []
  | c :: r =>
      match r with
      | d :: r' =>
          if is_high_surrogate c && is_low_surrogate d
          then c :: d :: quote_body r'
          else quote_unit c ++ quote_body r
      | [] => quote_unit c
      end
  end.

(** QuoteJSONString. *)
Definition QuoteJSONString (s : jsstring) : jsstring :=
  [34] ++ quote_body s ++ [34].

(** The brackets around the serialized members of an object or array. *)
Definition wrap (opening closing : N) (gap stepback indent : jsstring)
    (partial : list jsstring) : jsstring :=
  match partial with
  | [] => [opening; closing]
  | _ :: _ =>
      if truthy gap
      then [opening] ++ [10] ++ indent
           ++ join ([44; 10] ++ indent) partial
           ++ [10] ++ stepback ++ [closing]
      else [opening] ++ join [44] partial ++ [closing]
  end.

(** SerializeJSONProperty, SerializeJSONObject and SerializeJSONArray.
    The text of a property does not depend on the other properties, so
    the texts are computed over the table and then listed in the order
    of the own keys. *)
Fixpoint SerializeJSONProperty (gap indent : jsstring) (v : JsValue)
    : jsstring :=
  match v with
  | JNull => lit "null"
  | JBool b => if b then lit "true" else lit "false"
  | JNum x => Number_toJSON x
  | JStr s => QuoteJSONString s
  | JArr elements =>
      let stepback := indent in
      let indent := indent ++ gap in
      wrap 91 93 gap stepback indent
           (map (SerializeJSONProperty gap indent) elements)
  | JObj props =>
      let stepback := indent in
      let indent := indent ++ gap in
      let texts :=
        map (fun kv => (fst kv, SerializeJSONProperty gap indent (snd kv)))
            props in
      wrap 123 125 gap stepback indent
           (map (fun kt => QuoteJSONString (fst kt) ++ [58]
                           ++ (if truthy gap then [32] else []) ++ snd kt)
                (Object_entries texts))
  end.

(** [JSON.stringify(value)]. *)
Definition stringify (v : JsValue) : jsstring :=
  SerializeJSONProperty [] [] v.

(** [JSON.stringify(value, null, space)] for a number [space]: the gap
    is [min(10, space)] spaces. *)
Definition stringify_space (space : nat) (v : JsValue) : jsstring :=
  SerializeJSONProperty (repeat 32 (Nat.min 10 space)) [] v.

End JSON.
Export JSON.

(** ** The data of the component *)

(** Modelled from the spec: the interface [A2UIComponent] of
    [types/a2ui.types] is not among the sources.  A node is the plain
    object [{ type, props, children }] with [props] and [children]
    optional; the component only stores it and hands it to
    [JSON.stringify], so it is kept as the JSON value it is. *)
Definition A2UIComponent : Type := JsValue.

Definition str (s : string) : JsValue := JStr (lit s).
Definition prop (k : string) (v : JsValue) : jsstring * JsValue := (lit k, v).

Inductive Role : Type := user | model.

(** Modelled from the spec: the interface [ChatMessage] of
    [types/a2ui.types] is not among the sources.  The fields are the
    ones the component writes and reads; [None] is [undefined]. *)
Record ChatMessage : Type := {
  role : Role;
  content : option jsstring;
  promptContent : option jsstring;
  ui : option A2UIComponent;
  timestamp : Z
}.

(** The value of one entry of [activeFormData]. *)
Record FieldData : Type := { value : jsstring; isValid : bool }.

(** Modelled from the spec: [FormChangeEvent] of the renderer component
    is not among the sources; it carries [id], [value] and [isValid]. *)
Record FormChangeEvent : Type := {
  ev_id : jsstring;
  ev_value : jsstring;
  ev_isValid : bool
}.

Inductive ConnectionStatus : Type := disconnected | connected | error.

(** The value of [configForm], and the [config] object built from it. *)
Record AgentConfig : Type := {
  endpoint : jsstring;
  api_key : jsstring;
  deployment_name : jsstring;
  api_version : jsstring;
  mcp_servers : jsstring
}.

(** The reactive form: its value and whether [markAllAsTouched] ran. *)
Record ConfigForm : Type := { form_value : AgentConfig; touched : bool }.

(** [Validators.required] fails on the empty string; the form is invalid
    when one of its four required controls is. *)
Definition form_invalid (f : ConfigForm) : bool :=
  negb (truthy (endpoint (form_value f))
        && truthy (api_key (form_value f))
        && truthy (deployment_name (form_value f))
        && truthy (api_version (form_value f))).

Definition markAllAsTouched (f : ConfigForm) : ConfigForm :=
  {| form_value := form_value f; touched := true |}.

(** One entry of the history handed to the agent client. *)
Record Part : Type := { text : option jsstring }.
Record HistoryEntry : Type := { entry_role : Role; parts : list Part }.

(** What a method asks of its collaborators. *)
Inductive Effect : Type :=
| genAiService_connect (config : AgentConfig)
| genAiService_generateResponse (textToSend : jsstring)
                                (history : list HistoryEntry)
| console_error (label : option jsstring).

(** The signals of the component. *)
Record AppComponent : Type := {
  messages : list ChatMessage;
  userInput : jsstring;
  isLoading : bool;
  isSettingsOpen : bool;
  isConnecting : bool;
  connectionStatus : ConnectionStatus;
  activeFormData : JsObject FieldData;
  configForm : ConfigForm
}.

Definition set_messages (v : list ChatMessage) (c : AppComponent) :=
  {| messages := v; userInput := userInput c; isLoading := isLoading c;
     isSettingsOpen := isSettingsOpen c; isConnecting := isConnecting c;
     connectionStatus := connectionStatus c;
     activeFormData := activeFormData c; configForm := configForm c |}.

Definition set_userInput (v : jsstring) (c : AppComponent) :=
  {| messages := messages c; userInput := v; isLoading := isLoading c;
     isSettingsOpen := isSettingsOpen c; isConnecting := isConnecting c;
     connectionStatus := connectionStatus c;
     activeFormData := activeFormData c; configForm := configForm c |}.

Definition set_isLoading (v : bool) (c : AppComponent) :=
  {| messages := messages c; userInput := userInput c; isLoading := v;
     isSettingsOpen := isSettingsOpen c; isConnecting := isConnecting c;
     connectionStatus := connectionStatus c;
     activeFormData := activeFormData c; configForm := configForm c |}.

Definition set_isSettingsOpen (v : bool) (c : AppComponent) :=
  {| messages := messages c; userInput := userInput c;
     isLoading := isLoading c;
     isSettingsOpen := v; isConnecting := isConnecting c;
     connectionStatus := connectionStatus c;
     activeFormData := activeFormData c; configForm := configForm c |}.

Definition set_isConnecting (v : bool) (c : AppComponent) :=
  {| messages := messages c; userInput := userInput c;
     isLoading := isLoading c;
     isSettingsOpen := isSettingsOpen c; isConnecting := v;
     connectionStatus := connectionStatus c;
     activeFormData := activeFormData c; configForm := configForm c |}.

Definition set_connectionStatus (v : ConnectionStatus) (c : AppComponent) :=
  {| messages := messages c; userInput := userInput c;
     isLoading := isLoading c;
     isSettingsOpen := isSettingsOpen c; isConnecting := isConnecting c;
     connectionStatus := v;
     activeFormData := activeFormData c; configForm := configForm c |}.

Definition set_activeFormData (v : JsObject FieldData) (c : AppComponent) :=
  {| messages := messages c; userInput := userInput c;
     isLoading := isLoading c;
     isSettingsOpen := isSettingsOpen c; isConnecting := isConnecting c;
     connectionStatus := connectionStatus c;
     activeFormData := v; configForm := configForm c |}.

Definition set_configForm (v : ConfigForm) (c : AppComponent) :=
  {| messages := messages c; userInput := userInput c;
     isLoading := isLoading c;
     isSettingsOpen := isSettingsOpen c; isConnecting := isConnecting c;
     connectionStatus := connectionStatus c;
     activeFormData := activeFormData c; configForm := v |}.

(** ** The methods of the component

    [now] is the value of [new Date()] at the call. *)

(** [addSystemMessage]. *)
Definition addSystemMessage (ui0 : A2UIComponent) (now : Z)
    (c : AppComponent) : AppComponent :=
  set_messages
    (messages c ++
       [{| role := model; content := None; promptContent := None;
           ui := Some ui0; timestamp := now |}])
    c.

(** The tree of the initial greeting. *)
Definition greeting : A2UIComponent :=
  JObj [
    prop "type" (str "container");
    prop "props" (JObj [prop "direction" (str "col"); prop "gap" (str "md")]);
    prop "children" (JArr [
      JObj [
        prop "type" (str "card");
        prop "props" (JObj [prop "variant" (str "filled")]);
        prop "children" (JArr [
          JObj [
            prop "type" (str "container");
            prop "props" (JObj [prop "direction" (str "row");
                                prop "align" (str "center");
                                prop "gap" (str "md")]);
            prop "children" (JArr [
              JObj [prop "type" (str "text");
                    prop "props" (JObj [prop "content" (JStr [10024]);
                                        prop "size" (str "xl")])];
              JObj [prop "type" (str "text");
                    prop "props" (JObj [
                      prop "content" (str "A2UI Interface Ready");
                      prop "size" (str "lg");
                      prop "bold" (JBool true);
                      prop "color" (str "text-white")])]])];
          JObj [prop "type" (str "divider")];
          JObj [prop "type" (str "text");
                prop "props" (JObj [
                  prop "content"
                    (str "Please configure your Azure OpenAI settings to begin.");
                  prop "size" (str "md")])];
          JObj [
            prop "type" (str "container");
            prop "props" (JObj [prop "direction" (str "row");
                                prop "gap" (str "sm")]);
            prop "children" (JArr [
              JObj [prop "type" (str "button");
                    prop "props" (JObj [
                      prop "label" (str "Configure Agent");
                      prop "action" (str "open_settings");
                      prop "variant" (str "primary")])];
              JObj [prop "type" (str "button");
                    prop "props" (JObj [
                      prop "label" (str "ServiceNow Demo");
                      prop "action" (str "demo_servicenow");
                      prop "variant" (str "secondary")])]])]])]])].

(** The field initializers of the class. *)
Definition fields : AppComponent :=
  {| messages := [];
     userInput := [];
     isLoading := false;
     isSettingsOpen := false;
     isConnecting := false;
     connectionStatus := disconnected;
     activeFormData := [];
     configForm :=
       {| form_value :=
            {| endpoint := [];
               api_key := [];
               deployment_name := lit "gpt-4o";
               api_version := lit "2024-05-01-preview";
               mcp_servers := [] |};
          touched := false |} |}.

(** The constructor.  The scroll effect it registers only moves the
    view and is left out. *)
Definition constructor (now : Z) : AppComponent :=
  addSystemMessage greeting now fields.

Definition toggleSettings (c : AppComponent) : AppComponent :=
  set_isSettingsOpen (negb (isSettingsOpen c)) c.

(** The tree appended when the connection succeeds. *)
Definition connected_message (config : AgentConfig) : A2UIComponent :=
  JObj [
    prop "type" (str "container");
    prop "props" (JObj [prop "direction" (str "col"); prop "gap" (str "sm")]);
    prop "children" (JArr [
      JObj [prop "type" (str "badge");
            prop "props" (JObj [prop "label" (str "Connected");
                                prop "variant" (str "success")])];
      JObj [prop "type" (str "text");
            prop "props" (JObj [
              prop "content"
                (JStr (lit "Successfully connected to "
                       ++ deployment_name config))])]])].

(** [connectAgent] up to its [await]: either the form is invalid and the
    method returns, or [genAiService.connect(config)] is called. *)
Definition connectAgent (c : AppComponent) : AppComponent * list Effect :=
  if form_invalid (configForm c) then
    (set_configForm (markAllAsTouched (configForm c)) c, [])
  else
    let c := set_isConnecting true c in
    let c := set_connectionStatus disconnected c in
    let v := form_value (configForm c) in
    let config :=
      {| endpoint := endpoint v;
         api_key := api_key v;
         deployment_name := deployment_name v;
         api_version := api_version v;
         mcp_servers := or_else (Some (mcp_servers v)) [] |} in
    (c, [genAiService_connect config]).

(** [connectAgent] after the promise of [connect(config)] is fulfilled:
    the rest of the [try] block, then [finally]. *)
Definition connectAgent_fulfilled (config : AgentConfig) (now : Z)
    (c : AppComponent) : AppComponent * list Effect :=
  let c := set_connectionStatus connected c in
  let c := set_isSettingsOpen false c in
  let c := addSystemMessage (connected_message config) now c in
  (set_isConnecting false c, []).

(** [connectAgent] after the promise is rejected: [catch], [finally]. *)
Definition connectAgent_rejected (c : AppComponent)
    : AppComponent * list Effect :=
  let c := set_connectionStatus error c in
  (set_isConnecting false c,
   [console_error (Some (lit "Connection Failed"))]).

(** The entry of the history for one message. *)
Definition history_entry (m : ChatMessage) : HistoryEntry :=
  {| entry_role := role m;
     parts :=
       [{| text :=
             match role m with
             | user => or_else_opt (promptContent m) (content m)
             | model => option_map stringify (ui m)
             end |}] |}.

(** [sendMessage] up to its [await]. *)
Definition sendMessage (promptText displayText : option jsstring) (now : Z)
    (c : AppComponent) : AppComponent * list Effect :=
  let textToSend := or_else promptText (userInput c) in
  let textToDisplay := or_else displayText textToSend in
  if negb (truthy (trim textToSend)) || isLoading c then (c, [])
  else
    let history := map history_entry (messages c) in
    let c :=
      set_messages
        (messages c ++
           [{| role := user; content := Some textToDisplay;
               promptContent := Some textToSend; ui := None;
               timestamp := now |}])
        c in
    let c := set_userInput [] c in
    let c := set_isLoading true c in
    (c, [genAiService_generateResponse textToSend history]).

(** [sendMessage] after [generateResponse] is fulfilled with
    [uiResponse]: the rest of the [try] block, then [finally]. *)
Definition sendMessage_fulfilled (uiResponse : A2UIComponent) (now : Z)
    (c : AppComponent) : AppComponent * list Effect :=
  let c := addSystemMessage uiResponse now c in
  (set_isLoading false c, []).

(** [sendMessage] after [generateResponse] is rejected. *)
Definition sendMessage_rejected (c : AppComponent)
    : AppComponent * list Effect :=
  (set_isLoading false c, [console_error None]).

(** [handleFormChange]. *)
Definition handleFormChange (event : FormChangeEvent) (c : AppComponent)
    : AppComponent :=
  let current := activeFormData c in
  set_activeFormData
    (obj_set (obj_spread [] current) (ev_id event)
             {| value := ev_value event; isValid := ev_isValid event |})
    c.

(** The assignment [values[k] = s] of a string to a property of an
    object created by [{}]: it creates or updates an own property,
    except for the key [__proto__], which finds the inherited accessor
    of [Object.prototype], whose setter ignores a value that is neither
    an object nor [null]. *)
Definition assign_string (values : JsObject jsstring) (k s : jsstring)
    : JsObject jsstring :=
  if jseq k (lit "__proto__") then values else obj_set values k s.

(** The object [values] as the JSON value [JSON.stringify] is given. *)
Definition values_json (values : JsObject jsstring) : JsValue :=
  JObj (map (fun kv => (fst kv, JStr (snd kv))) values).

Definition demo_servicenow_prompt : jsstring :=
  lit "Generate a Standard ServiceNow Change Request form in a SINGLE card. Include at least these 10 fields: Change Number (readonly), Requested By, State, Priority, Risk, Short Description, Description, Assignment Group, Planned Start Date, and Planned End Date. Use Dividers to separate sections like "
  ++ [34] ++ lit "General" ++ [34] ++ lit ", "
  ++ [34] ++ lit "Schedule" ++ [34] ++ lit ", and "
  ++ [34] ++ lit "Planning" ++ [34] ++ lit ".".

(** [handleUiAction].  The call of [sendMessage] at its end is not
    awaited: what runs here is [sendMessage] up to its [await]. *)
Definition handleUiAction (actionId : jsstring) (now : Z) (c : AppComponent)
    : AppComponent * list Effect :=
  if jseq actionId (lit "open_settings") then
    (set_isSettingsOpen true c, [])
  else
    let currentFormData := activeFormData c in
    let invalidFields :=
      map fst (filter (fun kv => negb (isValid (snd kv)))
                      (Object_entries currentFormData)) in
    let prompt := lit "User triggered action: " ++ actionId ++ lit "." in
    let display := lit "Triggered Action: " ++ actionId in
    let '(prompt, display, c) :=
      if (0 <? List.length (Object_keys currentFormData))%nat then
        let values :=
          fold_left (fun values kv => assign_string values (fst kv)
                                                    (value (snd kv)))
                    (Object_entries currentFormData) [] in
        let prompt :=
          prompt ++ [10; 10] ++ lit "Submitted Form Data:" ++ [10]
          ++ stringify_space 2 (values_json values) in
        let display := display ++ lit " (Submitted Data)" in
        let '(prompt, display) :=
          if (0 <? List.length invalidFields)%nat then
            (prompt ++ [10; 10]
             ++ lit "Warning: The following fields have validation errors: "
             ++ join (lit ", ") invalidFields,
             display ++ [32; 9888; 65039] ++ lit " Invalid Fields")
          else (prompt, display) in
        (prompt, display, set_activeFormData [] c)
      else if jseq actionId (lit "demo_product") then
        (lit "Generate a stylish product card for high-end headphones with an image, price, and buy button.",
         lit "Show me a product demo", c)
      else if jseq actionId (lit "demo_list") then
        (lit "Create a checklist of 5 things to do for a healthy morning routine.",
         lit "Show me a list demo", c)
      else if jseq actionId (lit "demo_servicenow") then
        (demo_servicenow_prompt,
         lit "Create a Standard ServiceNow Change Request", c)
      else (prompt, display, c) in
    sendMessage (Some prompt) (Some display) now c.

(** ** The component in its environment

    Besides the signals, what the event loop holds for the component:
    the calls of the agent client that have not settled yet.  A pending
    [generateResponse] resumes [sendMessage], which keeps nothing of its
    own across the [await]; a pending [connect] resumes [connectAgent]
    with the [config] it was called with. *)
Record World : Type := {
  component : AppComponent;
  pending_generate : nat;
  pending_connect : list AgentConfig
}.

(** What can happen to the component: the user acts on the page, the
    renderer emits an event, or a pending call settles.  The template
    [app.component.html] is not among the sources: [TypeInput] and
    [EditConfig] stand for the free-text input and the configuration
    surface of the specification, which write [userInput] and the
    value of [configForm]. *)
Inductive Event : Type :=
| TypeInput (s : jsstring)
| EditConfig (v : AgentConfig)
| ToggleSettings
| ConnectAgent
| SendMessage (promptText displayText : option jsstring) (now : Z)
| FormChange (event : FormChangeEvent)
| UiAction (actionId : jsstring) (now : Z)
| GenerateFulfilled (uiResponse : A2UIComponent) (now : Z)
| GenerateRejected
| ConnectFulfilled (n : nat) (now : Z)
| ConnectRejected (n : nat).

Fixpoint remove_nth {A : Type} (n : nat) (l : list A) : list A :=
  match n, l with
  | _, [] => []
  | O, _ :: r => r
  | S n, x :: r => x :: remove_nth n r
  end.

(** The calls made by a method become pending. *)
Fixpoint register (effects : list Effect) (g : nat) (k : list AgentConfig)
    : nat * list AgentConfig :=
  match effects with
  | [] => (g, k)
  | genAiService_generateResponse _ _ :: r => register r (S g) k
  | genAiService_connect config :: r => register r g (k ++ [config])
  | console_error _ :: r => register r g k
  end.

Definition after_call (w : World) (r : AppComponent * list Effect)
    : World * list Effect :=
  let '(g, k) := register (snd r) (pending_generate w) (pending_connect w) in
  ({| component := fst r; pending_generate := g; pending_connect := k |}, snd r).

Definition with_component (w : World) (c : AppComponent) : World :=
  {| component := c; pending_generate := pending_generate w;
     pending_connect := pending_connect w |}.

(** One event; [None] when a call settles that is not pending. *)
Definition step (w : World) (e : Event) : option (World * list Effect) :=
  match e with
  | TypeInput s => Some (with_component w (set_userInput s (component w)), [])
  | EditConfig v =>
      Some (with_component w
              (set_configForm
                 {| form_value := v; touched := touched (configForm (component w)) |}
                 (component w)), [])
  | ToggleSettings => Some (with_component w (toggleSettings (component w)), [])
  | ConnectAgent => Some (after_call w (connectAgent (component w)))
  | SendMessage p d now => Some (after_call w (sendMessage p d now (component w)))
  | FormChange event => Some (with_component w (handleFormChange event (component w)), [])
  | UiAction a now => Some (after_call w (handleUiAction a now (component w)))
  | GenerateFulfilled uiResponse now =>
      match pending_generate w with
      | O => None
      | S g =>
          let r := sendMessage_fulfilled uiResponse now (component w) in
          Some ({| component := fst r; pending_generate := g;
                   pending_connect := pending_connect w |}, snd r)
      end
  | GenerateRejected =>
      match pending_generate w with
      | O => None
      | S g =>
          let r := sendMessage_rejected (component w) in
          Some ({| component := fst r; pending_generate := g;
                   pending_connect := pending_connect w |}, snd r)
      end
  | ConnectFulfilled n now =>
      match nth_error (pending_connect w) n with
      | None => None
      | Some config =>
          let r := connectAgent_fulfilled config now (component w) in
          Some ({| component := fst r; pending_generate := pending_generate w;
                   pending_connect := remove_nth n (pending_connect w) |},
                snd r)
      end
  | ConnectRejected n =>
      match nth_error (pending_connect w) n with
      | None => None
      | Some _ =>
          let r := connectAgent_rejected (component w) in
          Some ({| component := fst r; pending_generate := pending_generate w;
                   pending_connect := remove_nth n (pending_connect w) |},
                snd r)
      end
  end.

(** A sequence of events, with the calls made along the way. *)
Fixpoint run (w : World) (events : list Event)
    : option (World * list Effect) :=
  match events with
  | [] => Some (w, [])
  | e :: r =>
      match step w e with
      | None => None
      | Some (w', effects) =>
          match run w' r with
          | None => None
          | Some (w'', effects') => Some (w'', effects ++ effects')
          end
      end
  end.

(** The component right after its construction at time [now]. *)
Definition boot (now : Z) : World :=
  {| component := constructor now; pending_generate := O; pending_connect := [] |}.

(** The states a session can be in. *)
Inductive reachable : World -> Prop :=
| reachable_boot : forall now, reachable (boot now)
| reachable_step : forall w e w' effects,
    reachable w -> step w e = Some (w', effects) -> reachable w'.

(** * The vocabulary of the statements, and sample sessions *)

(** The entries whose key is not [__proto__]. *)
Definition not_proto (kv : jsstring * FieldData) : bool :=
  negb (jseq (fst kv) (lit "__proto__")).

(** A field id with the value of the field. *)
Definition field_value (kv : jsstring * FieldData) : jsstring * jsstring :=
  (fst kv, value (snd kv)).

(** One member of an object of strings, as printed with a gap. *)
Definition member_text (kv : jsstring * jsstring) : jsstring :=
  QuoteJSONString (fst kv) ++ [58; 32] ++ QuoteJSONString (snd kv).

(** A flat object of strings as [JSON.stringify(_, null, 2)] prints it:
    one member per line, indented by two spaces. *)
Definition pretty_object (members : list (jsstring * jsstring)) : jsstring :=
  match members with
  | [] => [123; 125]
  | _ :: _ =>
      [123; 10; 32; 32] ++ join [44; 10; 32; 32] (map member_text members)
      ++ [10; 125]
  end.

(** The user turn [sendMessage] appends. *)
Definition user_turn (textToDisplay textToSend : jsstring) (now : Z)
    : ChatMessage :=
  {| role := user; content := Some textToDisplay;
     promptContent := Some textToSend; ui := None; timestamp := now |}.

(** The model turn [addSystemMessage] appends. *)
Definition model_turn (tree : A2UIComponent) (now : Z) : ChatMessage :=
  {| role := model; content := None; promptContent := None;
     ui := Some tree; timestamp := now |}.

(** A user turn carries a prompt that is not empty, a model turn a tree. *)
Definition turn_ok (m : ChatMessage) : Prop :=
  match role m with
  | user => exists p, promptContent m = Some p /\ truthy p = true
  | model => exists tree, ui m = Some tree
  end.

(** [c'] has the turns of [c] and then some more. *)
Definition extends (c c' : AppComponent) : Prop :=
  exists extra,
    messages c' = messages c ++ extra /\ Forall turn_ok extra.

(** The form data is an object: no key occurs twice in its table. *)
Definition distinct_fields (c : AppComponent) : Prop :=
  NoDup (map fst (activeFormData c)).

(** A text written with apostrophes for the double quotes it stands for. *)
Definition requote (s : jsstring) : jsstring :=
  map (fun c => if c =? 39 then 34 else c) s.

(** The ids of the fields that are not valid, in the order of [fields]. *)
Definition invalid_ids (fields : list (jsstring * FieldData))
    : list jsstring :=
  map fst (filter (fun kv => negb (isValid (snd kv))) fields).

(** The warning line, present when some field is not valid. *)
Definition warning_line (ids : list jsstring) : jsstring :=
  match ids with
  | [] => []
  | _ :: _ =>
      [10; 10]
      ++ lit "Warning: The following fields have validation errors: "
      ++ join (lit ", ") ids
  end.

(** The marker of invalid fields in the display text. *)
Definition invalid_marker (ids : list jsstring) : jsstring :=
  match ids with
  | [] => []
  | _ :: _ => [32; 9888; 65039] ++ lit " Invalid Fields"
  end.

(** The form data after the renderer reported the fields [changes]. *)
Definition after_changes (changes : list FormChangeEvent) (c : AppComponent)
    : AppComponent :=
  fold_left (fun c e => handleFormChange e c) changes c.

(** A change of the field [id] reported by the renderer. *)
Definition field (id v : string) (valid : bool) : FormChangeEvent :=
  {| ev_id := lit id; ev_value := lit v; ev_isValid := valid |}.

(** A form with a valid name and an invalid e-mail address. *)
Definition order_form : AppComponent :=
  after_changes [field "name" "foo" true; field "email" "bad" false]
                (constructor 0).

(** *** The form data in the words of the specification

    A map from field id to field state that keeps the order in which
    the ids were first set: a change overwrites the entry of its id
    where it stands, or adds a new entry at the end. *)
Definition spec_onFieldChange (m : list (jsstring * FieldData))
    (e : FormChangeEvent) : list (jsstring * FieldData) :=
  obj_set m (ev_id e) {| value := ev_value e; isValid := ev_isValid e |}.

Definition spec_form (changes : list FormChangeEvent)
    : list (jsstring * FieldData) :=
  fold_left spec_onFieldChange changes [].

(** Two invalid fields, the one with id [2] set before the one with
    id [1]. *)
Definition swapped_changes : list FormChangeEvent :=
  [field "2" "x" false; field "1" "y" false].

(** The component after these two changes. *)
Definition swapped_form : AppComponent :=
  after_changes swapped_changes (constructor 0).

(** What a turn contributes to the history, in the words of the
    specification: a user turn its [promptContent] when it has one and
    its [content] otherwise, a model turn the JSON text of its tree. *)
Definition contribution (m : ChatMessage) : HistoryEntry :=
  {| entry_role := role m;
     parts :=
       [{| text :=
             match role m with
             | user =>
                 match promptContent m with
                 | Some p => Some p
                 | None => content m
                 end
             | model => option_map stringify (ui m)
             end |}] |}.

(** No user turn holds a prompt that is the empty string. *)
Definition prompts_present (l : list ChatMessage) : Prop :=
  Forall (fun m => role m = user -> promptContent m <> Some []) l.

(** A reply of the agent with numbers in it: 3.14, 42, 1e21, 2^63, a
    negative half and a NaN. *)
Definition gauge : A2UIComponent :=
  JObj [
    prop "type" (str "gauge");
    prop "props" (JObj [prop "label" (str "Pi");
                        prop "value" (JNum 4614253070214989087);
                        prop "max" (JNum (of_Z 42));
                        prop "scale" (JNum 4921056587992461136);
                        prop "limit" (JNum 4890909195324358656);
                        prop "offset" (JNum 13826050856027422720);
                        prop "unknown" (JNum 9221120237041090560);
                        prop "bold" (JBool false)])].

(** A history with every kind of turn: the greeting, a user turn shown
    as one text and sent as another, a user turn that holds its display
    text only, and a reply of the agent. *)
Definition mixed_history : AppComponent :=
  set_messages
    [model_turn greeting 0;
     user_turn (lit "Show me a list demo")
               (lit "Create a checklist of 5 things to do for a healthy morning routine.")
               1;
     {| role := user; content := Some (lit "plain words");
        promptContent := None; ui := None; timestamp := 2 |};
     model_turn gauge 3]
    fields.

(** The session after the user typed [hello]. *)
Definition typed_hello : World :=
  with_component (boot 0) (set_userInput (lit "hello") (constructor 0)).

(** The user typed two spaces and a tabulation. *)
Definition typed_blanks : World :=
  with_component (boot 0) (set_userInput [32; 32; 9] (constructor 0)).

(** The order form while a send is in flight. *)
Definition order_form_sending : AppComponent := set_isLoading true order_form.

(** The JSON text of the greeting tree. *)
Definition greeting_json : jsstring :=
  requote (lit "{'type':'container','props':{'direction':'col','gap':'md'},'children':[{'type':'card','props':{'variant':'filled'},'children':[{'type':'container','props':{'direction':'row','align':'center','gap':'md'},'children':[{'type':'text','props':{'content':'")
  ++ [10024]
  ++ requote (lit "','size':'xl'}},{'type':'text','props':{'content':'A2UI Interface Ready','size':'lg','bold':true,'color':'text-white'}}]},{'type':'divider'},{'type':'text','props':{'content':'Please configure your Azure OpenAI settings to begin.','size':'md'}},{'type':'container','props':{'direction':'row','gap':'sm'},'children':[{'type':'button','props':{'label':'Configure Agent','action':'open_settings','variant':'primary'}},{'type':'button','props':{'label':'ServiceNow Demo','action':'demo_servicenow','variant':'secondary'}}]}]}]}").

(** The entry of the history that holds the greeting. *)
Definition greeting_entry : HistoryEntry :=
  {| entry_role := model; parts := [{| text := Some greeting_json |}] |}.

(** A configuration that passes the validation of the form. *)
Definition configured : AgentConfig :=
  {| endpoint := lit "https://example.openai.azure.com";
     api_key := lit "k";
     deployment_name := lit "gpt-4o";
     api_version := lit "2024-05-01-preview";
     mcp_servers := [] |}.

(** The user fills in the settings, connects, the connection succeeds,
    and only then the first message is sent. *)
Definition connect_then_send : list Event :=
  [EditConfig configured; ConnectAgent; ConnectFulfilled 0 1;
   SendMessage (Some (lit "hi")) None 2].

(** ** More vocabulary: lookups, counts and the shape of turns *)

(** The own property [o[k]] of an object; [None] when there is none. *)
Fixpoint obj_get (V : Type) (o : JsObject V) (k : jsstring) : option V :=
  match o with
  | [] => None
  | (k', v) :: r => if jseq k' k then Some v else obj_get r k
  end.

(** The state of a field that a change event reports. *)
Definition field_data (e : FormChangeEvent) : FieldData :=
  {| value := ev_value e; isValid := ev_isValid e |}.

(** What the last of [changes] that names [id] reports for it. *)
Fixpoint last_change (id : jsstring) (changes : list FormChangeEvent)
    : option FieldData :=
  match changes with
  | [] => None
  | e :: r =>
      match last_change id r with
      | Some d => Some d
      | None => if jseq (ev_id e) id then Some (field_data e) else None
      end
  end.

Definition is_user (m : ChatMessage) : bool :=
  match role m with user => true | model => false end.

(** The number of user turns among [l]. *)
Definition user_turns (l : list ChatMessage) : nat :=
  List.length (filter is_user l).

Definition is_generate (e : Effect) : bool :=
  match e with genAiService_generateResponse _ _ => true | _ => false end.

(** The number of calls of [generateResponse] among [effects]. *)
Definition generate_calls (effects : list Effect) : nat :=
  List.length (filter is_generate effects).

(** What a turn holds, by role: a user turn a display text that is not
    empty and a prompt that is not blank, and no tree; a model turn a
    tree and no text. *)
Definition turn_shape (m : ChatMessage) : Prop :=
  match role m with
  | user =>
      exists d p,
        content m = Some d /\ promptContent m = Some p
        /\ truthy d = true /\ forallb isWhiteSpace p = false
        /\ ui m = None
  | model =>
      exists tree,
        ui m = Some tree /\ content m = None /\ promptContent m = None
  end.

(** The prompt and the display text of an action dispatched with no
    form data: the three demo buttons have theirs, any other id the
    generic pair. *)
Definition fallback (actionId : jsstring) : jsstring * jsstring :=
  if jseq actionId (lit "demo_product") then
    (lit "Generate a stylish product card for high-end headphones with an image, price, and buy button.",
     lit "Show me a product demo")
  else if jseq actionId (lit "demo_list") then
    (lit "Create a checklist of 5 things to do for a healthy morning routine.",
     lit "Show me a list demo")
  else if jseq actionId (lit "demo_servicenow") then
    (demo_servicenow_prompt,
     lit "Create a Standard ServiceNow Change Request")
  else
    (lit "User triggered action: " ++ actionId ++ lit ".",
     lit "Triggered Action: " ++ actionId).

(** The component with the settings filled in as [configured]. *)
Definition configured_form : AppComponent :=
  set_configForm {| form_value := configured; touched := false |}
                 (constructor 0).

(** The session after [events], from a component constructed at time
    0; the session as constructed when some event could not happen. *)
Definition world_after (events : list Event) : World :=
  match run (boot 0) events with
  | Some (w, _) => w
  | None => boot 0
  end.

(** The settings are filled in and the connection is requested. *)
Definition connect_requested : list Event :=
  [EditConfig configured; ConnectAgent].

(** The connection then succeeds. *)
Definition connect_succeeded : list Event :=
  [EditConfig configured; ConnectAgent; ConnectFulfilled 0 1].

(** The prompts given to [generateResponse] by [effects], in order. *)
Fixpoint prompts_sent (effects : list Effect) : list jsstring :=
  match effects with
  | [] => []
  | genAiService_generateResponse p _ :: r => p :: prompts_sent r
  | _ :: r => prompts_sent r
  end.

(** The [promptContent] of the user turns among [l], in order. *)
Definition user_prompts (l : list ChatMessage) : list (option jsstring) :=
  map promptContent (filter is_user l).

Definition is_user_entry (h : HistoryEntry) : bool :=
  match entry_role h with user => true | model => false end.

(** The texts of the parts of the user entries of a history, in order. *)
Definition user_texts (h : list HistoryEntry)
    : list (list (option jsstring)) :=
  map (fun e => map text (parts e)) (filter is_user_entry h).

(** An entry put into a list sorted by index after the entries whose
    index is not larger. *)
Fixpoint insert_after_index (V : Type) (n : N) (kv : jsstring * V)
    (l : list (N * (jsstring * V))) : list (N * (jsstring * V)) :=
  match l with
  | [] => [(n, kv)]
  | (m, kv') :: r =>
      if n <? m then (n, kv) :: l else (m, kv') :: insert_after_index n kv r
  end.

(** An entry with its value replaced by [v] when its key is [k]. *)
Definition with_value (V : Type) (k : jsstring) (v : V)
    (kv : jsstring * V) : jsstring * V :=
  if jseq (fst kv) k then (fst kv, v) else kv.

(** * Properties *)

(** ** Strings *)

Lemma jseq_true (a b : jsstring) : jseq a b = true <-> a = b.
Proof.
  unfold jseq. destruct (list_eq_dec N.eq_dec a b); split; congruence.
Qed.

Lemma jseq_false (a b : jsstring) : jseq a b = false <-> a <> b.
Proof.
  unfold jseq. destruct (list_eq_dec N.eq_dec a b); split; congruence.
Qed.

Lemma jseq_refl (a : jsstring) : jseq a a = true.
Proof. now apply jseq_true. Qed.

Lemma truthy_rev (s : jsstring) : truthy (rev s) = truthy s.
Proof.
  destruct s as [|c r]; [reflexivity|]. simpl.
  destruct (rev r ++ [c]) eqn:E; [|reflexivity].
  now destruct (rev r).
Qed.

Lemma trimStart_all_white (s : jsstring) :
  truthy (trimStart s) = negb (forallb isWhiteSpace s).
Proof.
  induction s as [|c r IH]; [reflexivity|]. simpl.
  destruct (isWhiteSpace c); [exact IH | reflexivity].
Qed.

Lemma trimStart_keeps_black (s : jsstring) :
  forallb isWhiteSpace s = false ->
  forallb isWhiteSpace (trimStart s) = false.
Proof.
  induction s as [|c r IH]; simpl; [discriminate|].
  destruct (isWhiteSpace c) eqn:E; simpl; [exact IH | now rewrite E].
Qed.

Lemma forallb_rev (A : Type) (p : A -> bool) (l : list A) :
  forallb p (rev l) = forallb p l.
Proof.
  induction l as [|x r IH]; [reflexivity|]. simpl.
  rewrite forallb_app, IH. simpl. rewrite andb_true_r. apply andb_comm.
Qed.

(** [s.trim()] is the empty string exactly when [s] is made of white
    space only. *)
Lemma truthy_trim (s : jsstring) :
  truthy (trim s) = negb (forallb isWhiteSpace s).
Proof.
  unfold trim, trimEnd. rewrite truthy_rev, trimStart_all_white, forallb_rev.
  destruct (forallb isWhiteSpace s) eqn:E.
  - pose proof (trimStart_all_white s) as H. rewrite E in H.
    destruct (trimStart s); [reflexivity | discriminate].
  - now rewrite trimStart_keeps_black.
Qed.

(** ** Own keys of an object *)

Section OwnKeysFacts.
Variable V : Type.
Implicit Types (o s : JsObject V) (l : list (N * (jsstring * V))).

Lemma insert_by_index_perm n kv l :
  Permutation (map snd (insert_by_index n kv l)) (kv :: map snd l).
Proof.
  induction l as [|[m kv'] r IH]; simpl; [reflexivity|].
  destruct (n <=? m); simpl; [reflexivity|].
  rewrite IH. apply perm_swap.
Qed.

Lemma Object_entries_perm o : Permutation (Object_entries o) o.
Proof.
  unfold Object_entries, named.
  induction o as [|kv r IH]; simpl; [reflexivity|].
  unfold is_index. destruct (array_index (fst kv)); simpl.
  - rewrite insert_by_index_perm. simpl. now apply perm_skip.
  - symmetry. apply Permutation_cons_app. now symmetry.
Qed.

Lemma Object_entries_nil o : Object_entries o = [] -> o = [].
Proof.
  intros H. apply Permutation_nil. rewrite <- H.
  apply Object_entries_perm.
Qed.

Lemma Object_keys_NoDup o :
  NoDup (map fst o) -> NoDup (map fst (Object_entries o)).
Proof.
  intros H. eapply Permutation_NoDup; [|exact H].
  apply Permutation_map. symmetry. apply Object_entries_perm.
Qed.

Lemma insert_by_index_Forall (P : N * (jsstring * V) -> Prop) n kv l :
  P (n, kv) -> Forall P l -> Forall P (insert_by_index n kv l).
Proof.
  intros Hn Hl. induction Hl as [|[m kv'] r Hm Hr IH]; simpl.
  - now constructor.
  - destruct (n <=? m); repeat constructor; assumption.
Qed.

Lemma insert_by_index_sorted n kv l :
  StronglySorted le_index l ->
  StronglySorted le_index (insert_by_index n kv l).
Proof.
  induction 1 as [|[m kv'] r Hr IH Hm]; simpl.
  - repeat constructor.
  - destruct (n <=? m) eqn:E.
    + apply N.leb_le in E. constructor; [now constructor|].
      constructor; [exact E|].
      eapply Forall_impl; [|exact Hm].
      intros y Hy. unfold le_index in *. simpl in *. lia.
    + apply N.leb_gt in E. constructor; [exact IH|].
      apply insert_by_index_Forall; [|exact Hm].
      unfold le_index. simpl. lia.
Qed.

Lemma indexed_sorted o : StronglySorted le_index (indexed o).
Proof.
  induction o as [|kv r IH]; simpl; [constructor|].
  destruct (array_index (fst kv)); [|exact IH].
  now apply insert_by_index_sorted.
Qed.

Lemma indexed_tagged o : Forall tagged (indexed o).
Proof.
  induction o as [|kv r IH]; simpl; [constructor|].
  destruct (array_index (fst kv)) eqn:E; [|exact IH].
  apply insert_by_index_Forall; [exact E | exact IH].
Qed.

Lemma named_unindexed o : Forall unindexed (named o).
Proof.
  unfold named. apply Forall_forall. intros kv H.
  apply filter_In in H. destruct H as [_ H].
  unfold unindexed. now destruct (is_index (fst kv)).
Qed.

Lemma own_key_order_entries o : own_key_order (Object_entries o).
Proof.
  exists (indexed o), (named o).
  repeat split;
    auto using indexed_sorted, indexed_tagged, named_unindexed.
Qed.

Lemma indexed_unindexed s : Forall unindexed s -> indexed s = [].
Proof.
  induction 1 as [|kv r Hkv Hr IH]; simpl; [reflexivity|].
  unfold unindexed, is_index in Hkv.
  destruct (array_index (fst kv)); [discriminate | exact IH].
Qed.

Lemma named_of_unindexed s : Forall unindexed s -> named s = s.
Proof.
  unfold named. induction 1 as [|kv r Hkv Hr IH]; simpl; [reflexivity|].
  unfold unindexed in Hkv. rewrite Hkv. simpl. now rewrite IH.
Qed.

Lemma indexed_of_sorted l s :
  StronglySorted le_index l -> Forall tagged l -> Forall unindexed s ->
  indexed (map snd l ++ s) = l.
Proof.
  intros Hl Ht Hs. induction Hl as [|[n kv] r Hr IH Hn]; simpl.
  - now apply indexed_unindexed.
  - inversion Ht as [|? ? Hx Hr']; subst.
    unfold tagged in Hx. simpl in Hx. rewrite Hx, (IH Hr').
    destruct r as [|[m kv'] r']; simpl; [reflexivity|].
    inversion Hn as [|? ? Hm _]; subst. unfold le_index in Hm. simpl in Hm.
    apply N.leb_le in Hm. now rewrite Hm.
Qed.

Lemma named_of_sorted l s :
  Forall tagged l -> Forall unindexed s -> named (map snd l ++ s) = s.
Proof.
  intros Ht Hs. induction Ht as [|[n kv] r Hx Hr IH]; simpl.
  - now apply named_of_unindexed.
  - unfold tagged in Hx. simpl in Hx. unfold named in *. simpl.
    unfold is_index. rewrite Hx. simpl. exact IH.
Qed.

(** Listing the own keys of a table that is already in listing order
    changes nothing. *)
Lemma Object_entries_fixed o : own_key_order o -> Object_entries o = o.
Proof.
  intros (l & s & -> & Hl & Ht & Hs). unfold Object_entries.
  now rewrite indexed_of_sorted, named_of_sorted.
Qed.

Lemma StronglySorted_filter (p : N * (jsstring * V) -> bool) l :
  StronglySorted le_index l -> StronglySorted le_index (filter p l).
Proof.
  induction 1 as [|x r Hr IH Hx]; simpl; [constructor|].
  destruct (p x); [|exact IH]. constructor; [exact IH|].
  apply Forall_forall. intros y Hy. apply filter_In in Hy.
  rewrite Forall_forall in Hx. now apply Hx.
Qed.

Lemma Forall_filter (A : Type) (P : A -> Prop) (p : A -> bool)
    (xs : list A) : Forall P xs -> Forall P (filter p xs).
Proof.
  intros H. apply Forall_forall. intros y Hy. apply filter_In in Hy.
  rewrite Forall_forall in H. now apply H.
Qed.

Lemma map_snd_filter (p : jsstring * V -> bool) l :
  filter p (map snd l) = map snd (filter (fun x => p (snd x)) l).
Proof.
  induction l as [|x r IH]; simpl; [reflexivity|].
  destruct (p (snd x)); simpl; now rewrite IH.
Qed.

Lemma own_key_order_filter (p : jsstring * V -> bool) o :
  own_key_order o -> own_key_order (filter p o).
Proof.
  intros (l & s & -> & Hl & Ht & Hs).
  exists (filter (fun x => p (snd x)) l), (filter p s).
  rewrite filter_app, map_snd_filter.
  repeat split; auto using StronglySorted_filter, Forall_filter.
Qed.

Lemma obj_set_fresh o k v :
  ~ In k (map fst o) -> obj_set o k v = o ++ [(k, v)].
Proof.
  induction o as [|[k' v'] r IH]; simpl; intros H; [reflexivity|].
  destruct (jseq k' k) eqn:E.
  - apply jseq_true in E. tauto.
  - rewrite IH; tauto.
Qed.

Lemma obj_set_keys o k v :
  In k (map fst o) -> map fst (obj_set o k v) = map fst o.
Proof.
  induction o as [|[k' v'] r IH]; simpl; intros H; [tauto|].
  destruct (jseq k' k) eqn:E; simpl; [reflexivity|].
  apply jseq_false in E. rewrite IH; [reflexivity|]. tauto.
Qed.

Lemma obj_set_NoDup o k v :
  NoDup (map fst o) -> NoDup (map fst (obj_set o k v)).
Proof.
  intros H. destruct (in_dec (list_eq_dec N.eq_dec) k (map fst o)) as [i|n].
  - now rewrite obj_set_keys.
  - rewrite obj_set_fresh by exact n. rewrite map_app. simpl.
    apply NoDup_app; [exact H | repeat constructor; simpl; tauto |].
    intros x Hx [<-|[]]. tauto.
Qed.
End OwnKeysFacts.

Section OwnKeysMap.
Variables (V W : Type) (f : V -> W).

Lemma insert_by_index_map n kv l :
  insert_by_index n (on_values f kv)
    (map (fun x => (fst x, on_values f (snd x))) l)
  = map (fun x => (fst x, on_values f (snd x))) (insert_by_index n kv l).
Proof.
  induction l as [|[m kv'] r IH]; simpl; [reflexivity|].
  destruct (n <=? m); simpl; [reflexivity | now rewrite IH].
Qed.

Lemma indexed_map o :
  indexed (map (on_values f) o)
  = map (fun x => (fst x, on_values f (snd x))) (indexed o).
Proof.
  induction o as [|kv r IH]; simpl; [reflexivity|].
  destruct (array_index (fst kv)); [|exact IH].
  now rewrite IH, insert_by_index_map.
Qed.

Lemma named_map o : named (map (on_values f) o) = map (on_values f) (named o).
Proof.
  unfold named. induction o as [|kv r IH]; simpl; [reflexivity|].
  destruct (is_index (fst kv)); simpl; now rewrite IH.
Qed.

(** Changing the values of an object leaves the order of its keys. *)
Lemma Object_entries_map o :
  Object_entries (map (on_values f) o) = map (on_values f) (Object_entries o).
Proof.
  unfold Object_entries.
  now rewrite indexed_map, named_map, map_app, !map_map.
Qed.
End OwnKeysMap.

(** ** The submitted values and their text *)

(** The loop [forEach(([k, v]) => values[k] = v.value)] over entries
    with distinct keys copies every value but the one under
    [__proto__], in the order of the entries. *)
Lemma fold_assign_string (entries : list (jsstring * FieldData))
    (values : JsObject jsstring) :
  NoDup (map fst values ++ map fst entries) ->
  fold_left (fun values kv => assign_string values (fst kv) (value (snd kv)))
            entries values
  = values ++ map field_value (filter not_proto entries).
Proof.
  revert values. induction entries as [|[k d] r IH]; intros values H; simpl.
  - now rewrite app_nil_r.
  - unfold not_proto at 1, assign_string at 2. simpl.
    destruct (jseq k (lit "__proto__")); simpl.
    + apply IH. now apply NoDup_remove_1 in H.
    + rewrite obj_set_fresh.
      * rewrite IH; [now rewrite <- app_assoc|].
        now rewrite map_app, <- app_assoc.
      * apply NoDup_remove_2 in H. intros Hin. apply H.
        apply in_or_app. now left.
Qed.

Lemma stringify_values (values : JsObject jsstring) :
  Object_entries values = values ->
  stringify_space 2 (values_json values) = pretty_object values.
Proof.
  intros H. unfold stringify_space, values_json. simpl.
  change (map (fun kv : jsstring * JsValue =>
                 (fst kv, SerializeJSONProperty [32; 32] [32; 32] (snd kv)))
              (map (fun kv : jsstring * jsstring => (fst kv, JStr (snd kv)))
                   values))
    with (map (on_values (SerializeJSONProperty [32; 32] [32; 32]))
              (map (on_values JStr) values)).
  rewrite !Object_entries_map, H, !map_map.
  destruct values as [|kv r]; reflexivity.
Qed.

(** ** [sendMessage] *)

Lemma sendMessage_returns (promptText displayText : option jsstring)
    (now : Z) (c : AppComponent) :
  truthy (trim (or_else promptText (userInput c))) = false
  \/ isLoading c = true ->
  sendMessage promptText displayText now c = (c, []).
Proof.
  intros H. unfold sendMessage.
  destruct H as [H|H]; rewrite H; simpl; [reflexivity|].
  now rewrite orb_true_r.
Qed.

Lemma sendMessage_proceeds (promptText displayText : option jsstring)
    (now : Z) (c : AppComponent) :
  truthy (trim (or_else promptText (userInput c))) = true ->
  isLoading c = false ->
  let textToSend := or_else promptText (userInput c) in
  let textToDisplay := or_else displayText textToSend in
  sendMessage promptText displayText now c
  = (set_isLoading true
       (set_userInput []
          (set_messages
             (messages c ++ [user_turn textToDisplay textToSend now]) c)),
     [genAiService_generateResponse textToSend
        (map history_entry (messages c))]).
Proof.
  intros H1 H2. unfold sendMessage. rewrite H1, H2. reflexivity.
Qed.

Lemma sendMessage_cases (promptText displayText : option jsstring)
    (now : Z) (c : AppComponent) :
  sendMessage promptText displayText now c = (c, [])
  \/ sendMessage promptText displayText now c
     = (set_isLoading true
          (set_userInput []
             (set_messages
                (messages c ++
                   [user_turn
                      (or_else displayText (or_else promptText (userInput c)))
                      (or_else promptText (userInput c)) now]) c)),
        [genAiService_generateResponse (or_else promptText (userInput c))
           (map history_entry (messages c))])
     /\ truthy (trim (or_else promptText (userInput c))) = true
     /\ isLoading c = false.
Proof.
  destruct (truthy (trim (or_else promptText (userInput c)))) eqn:H1.
  - destruct (isLoading c) eqn:H2.
    + left. apply sendMessage_returns. now right.
    + right. split; [now apply sendMessage_proceeds | split; reflexivity].
  - left. apply sendMessage_returns. now left.
Qed.

Lemma sendMessage_activeFormData (promptText displayText : option jsstring)
    (now : Z) (c : AppComponent) :
  activeFormData (fst (sendMessage promptText displayText now c))
  = activeFormData c.
Proof.
  destruct (sendMessage_cases promptText displayText now c) as [H|[H _]];
    now rewrite H.
Qed.

Lemma truthy_of_trim (s : jsstring) :
  truthy (trim s) = true -> truthy s = true.
Proof.
  rewrite truthy_trim. now destruct s.
Qed.

(** ** [handleUiAction] *)

Lemma set_activeFormData_same (c : AppComponent) :
  set_activeFormData (activeFormData c) c = c.
Proof. now destruct c. Qed.

Lemma no_keys_no_data (V : Type) (o : JsObject V) :
  (0 <? List.length (Object_keys o))%nat = false -> o = [].
Proof.
  intros H. apply Object_entries_nil. unfold Object_keys in H.
  destruct (Object_entries o); [reflexivity | discriminate].
Qed.

Lemma some_keys_some_data (V : Type) (o : JsObject V) :
  o <> [] -> (0 <? List.length (Object_keys o))%nat = true.
Proof.
  intros H. destruct (0 <? List.length (Object_keys o))%nat eqn:E;
    [reflexivity|]. now apply no_keys_no_data in E.
Qed.

(** Every action but [open_settings] ends in a call of [sendMessage]
    on the component with its form data emptied. *)
Lemma handleUiAction_sends (actionId : jsstring) (now : Z)
    (c : AppComponent) :
  actionId <> lit "open_settings" ->
  exists prompt display,
    handleUiAction actionId now c
    = sendMessage (Some prompt) (Some display) now (set_activeFormData [] c).
Proof.
  intros Ha. apply jseq_false in Ha. unfold handleUiAction. rewrite Ha.
  destruct (0 <? List.length (Object_keys (activeFormData c)))%nat eqn:E.
  - match goal with |- context [if ?b then _ else _] => destruct b end;
      eauto.
  - apply no_keys_no_data in E.
    assert (Hc : set_activeFormData [] c = c).
    { pose proof (set_activeFormData_same c) as H. now rewrite E in H. }
    rewrite Hc.
    repeat match goal with |- context [if ?b then _ else _] => destruct b end;
      eauto.
Qed.

(** ** What holds in every state of a session *)

Lemma extends_refl (c c' : AppComponent) :
  messages c' = messages c -> extends c c'.
Proof.
  intros H. exists []. now rewrite app_nil_r.
Qed.

Lemma extends_trans (a b c : AppComponent) :
  extends a b -> extends b c -> extends a c.
Proof.
  intros (x & Hx & Fx) (y & Hy & Fy). exists (x ++ y).
  rewrite Hy, Hx, app_assoc. split; [reflexivity|].
  apply Forall_app. now split.
Qed.

Lemma sendMessage_extends (promptText displayText : option jsstring)
    (now : Z) (c : AppComponent) :
  extends c (fst (sendMessage promptText displayText now c)).
Proof.
  destruct (sendMessage_cases promptText displayText now c)
    as [H|(H & Ht & _)]; rewrite H; simpl.
  - now apply extends_refl.
  - eexists. split; [reflexivity|]. repeat constructor.
    unfold turn_ok. simpl. eauto using truthy_of_trim.
Qed.

Lemma addSystemMessage_extends (tree : A2UIComponent) (now : Z)
    (c : AppComponent) :
  extends c (addSystemMessage tree now c).
Proof.
  eexists. split; [reflexivity|]. repeat constructor.
  unfold turn_ok. simpl. eauto.
Qed.

Lemma handleUiAction_extends (actionId : jsstring) (now : Z)
    (c : AppComponent) :
  extends c (fst (handleUiAction actionId now c)).
Proof.
  destruct (list_eq_dec N.eq_dec actionId (lit "open_settings")) as [->|Ha].
  - unfold handleUiAction. rewrite jseq_refl. now apply extends_refl.
  - destruct (handleUiAction_sends now c Ha) as (p & d & ->).
    eapply extends_trans; [|apply sendMessage_extends].
    now apply extends_refl.
Qed.

Lemma handleUiAction_distinct (actionId : jsstring) (now : Z)
    (c : AppComponent) :
  distinct_fields c -> distinct_fields (fst (handleUiAction actionId now c)).
Proof.
  intros H.
  destruct (list_eq_dec N.eq_dec actionId (lit "open_settings")) as [->|Ha].
  - unfold handleUiAction. now rewrite jseq_refl.
  - destruct (handleUiAction_sends now c Ha) as (p & d & ->).
    unfold distinct_fields. rewrite sendMessage_activeFormData. constructor.
Qed.

Lemma fold_obj_set_fresh (V : Type) (l acc : JsObject V) :
  NoDup (map fst acc ++ map fst l) ->
  fold_left (fun o kv => obj_set o (fst kv) (snd kv)) l acc = acc ++ l.
Proof.
  revert acc. induction l as [|[k v] r IH]; intros acc H; simpl.
  - now rewrite app_nil_r.
  - rewrite obj_set_fresh.
    + rewrite IH; [now rewrite <- app_assoc|].
      now rewrite map_app, <- app_assoc.
    + apply NoDup_remove_2 in H. intros Hin. apply H.
      apply in_or_app. now left.
Qed.

(** The copy [{...o}] of an object holds its properties in the order
    its own keys are listed. *)
Lemma obj_spread_entries (V : Type) (o : JsObject V) :
  NoDup (map fst o) -> obj_spread [] o = Object_entries o.
Proof.
  intros H. unfold obj_spread. rewrite fold_obj_set_fresh; [reflexivity|].
  simpl. now apply Object_keys_NoDup.
Qed.

Lemma handleFormChange_distinct (event : FormChangeEvent)
    (c : AppComponent) :
  distinct_fields c -> distinct_fields (handleFormChange event c).
Proof.
  unfold distinct_fields, handleFormChange. simpl. intros H.
  apply obj_set_NoDup. rewrite obj_spread_entries by exact H.
  now apply Object_keys_NoDup.
Qed.

Lemma connectAgent_state (c : AppComponent) :
  messages (fst (connectAgent c)) = messages c
  /\ activeFormData (fst (connectAgent c)) = activeFormData c.
Proof.
  unfold connectAgent. now destruct (form_invalid (configForm c)).
Qed.

(** One event only adds turns, and keeps the form data a table with
    distinct keys. *)
Lemma step_extends (w w' : World) (e : Event) (effects : list Effect) :
  step w e = Some (w', effects) ->
  extends (component w) (component w')
  /\ (distinct_fields (component w) -> distinct_fields (component w')).
Proof.
  destruct e; simpl; intros H.
  - inversion H; subst. split; [now apply extends_refl | auto].
  - inversion H; subst. split; [now apply extends_refl | auto].
  - inversion H; subst. split; [now apply extends_refl | auto].
  - unfold after_call in H. destruct (register _ _ _). inversion H; subst.
    simpl. destruct (connectAgent_state (component w)) as [Hm Hf].
    split; [now apply extends_refl|]. unfold distinct_fields. now rewrite Hf.
  - unfold after_call in H. destruct (register _ _ _). inversion H; subst.
    simpl. split; [apply sendMessage_extends|].
    unfold distinct_fields. now rewrite sendMessage_activeFormData.
  - inversion H; subst. simpl.
    split; [now apply extends_refl | apply handleFormChange_distinct].
  - unfold after_call in H. destruct (register _ _ _). inversion H; subst.
    simpl. split; [apply handleUiAction_extends|].
    apply handleUiAction_distinct.
  - destruct (pending_generate w); [discriminate|]. inversion H; subst.
    simpl. split; [apply addSystemMessage_extends | auto].
  - destruct (pending_generate w); [discriminate|]. inversion H; subst.
    simpl. split; [now apply extends_refl | auto].
  - destruct (nth_error (pending_connect w) n); [|discriminate].
    inversion H; subst. simpl. split; [|auto].
    apply (addSystemMessage_extends _ _
             (set_isSettingsOpen false
                (set_connectionStatus connected (component w)))).
  - destruct (nth_error (pending_connect w) n); [|discriminate].
    inversion H; subst. simpl. split; [now apply extends_refl | auto].
Qed.

(** The first turn of a session is the greeting, every user turn holds
    the prompt that was sent, every model turn a tree, and no field id
    occurs twice in the form data. *)
Lemma reachable_invariant (w : World) :
  reachable w ->
  (exists now rest,
     messages (component w) = model_turn greeting now :: rest)
  /\ Forall turn_ok (messages (component w))
  /\ distinct_fields (component w).
Proof.
  induction 1 as [now|w e w' effects Hw IH Hs].
  - split; [now exists now, []|]. split.
    + repeat constructor. unfold turn_ok. simpl. eauto.
    + constructor.
  - destruct IH as ((now & rest & Hg) & Ht & Hd).
    destruct (step_extends _ _ Hs) as [(extra & Hm & He) Hd'].
    rewrite Hm. split; [|split; [|auto]].
    + exists now, (rest ++ extra). now rewrite Hg.
    + apply Forall_app. now split.
Qed.

(** ** Dispatching an action *)

(** C1. For every action id other than [open_settings], the form data
    is empty right after [handleUiAction], whatever it held before: a
    table that held fields is reset, an empty one stays empty. *)
Theorem handleUiAction_clears_form (actionId : jsstring) (now : Z)
    (c : AppComponent) :
  actionId <> lit "open_settings" ->
  activeFormData (fst (handleUiAction actionId now c)) = [].
Proof.
  intros Ha. destruct (handleUiAction_sends now c Ha) as (p & d & ->).
  now rewrite sendMessage_activeFormData.
Qed.

Lemma handleUiAction_clears_form_witness :
  activeFormData
    (fst (handleUiAction (lit "submit_order") 7
            (after_changes [field "name" "foo" true] (constructor 0))))
  = [].
Proof.
  apply (handleUiAction_clears_form (actionId := lit "submit_order")).
  vm_compute. discriminate.
Defined.

(** *** The own keys of the form data after a change *)

Section OwnKeysChange.
Variable V : Type.
Implicit Types (o : JsObject V) (l : list (N * (jsstring * V))).

Lemma insert_commute na (a : jsstring * V) n (kv : jsstring * V) l :
  insert_by_index na a (insert_after_index n kv l)
  = insert_after_index n kv (insert_by_index na a l).
Proof.
  induction l as [|[m kv'] r IH]; simpl.
  - destruct (na <=? n) eqn:E1, (n <? na) eqn:E2; try reflexivity;
      [apply N.leb_le in E1; apply N.ltb_lt in E2
      |apply N.leb_gt in E1; apply N.ltb_ge in E2]; lia.
  - destruct (n <? m) eqn:E1, (na <=? m) eqn:E2; simpl;
      rewrite ?E1, ?E2; try (now rewrite IH);
      destruct (na <=? n) eqn:E3, (n <? na) eqn:E4; try reflexivity;
      try apply N.ltb_lt in E1; try apply N.ltb_ge in E1;
      try apply N.leb_le in E2; try apply N.leb_gt in E2;
      try apply N.leb_le in E3; try apply N.leb_gt in E3;
      try apply N.ltb_lt in E4; try apply N.ltb_ge in E4; lia.
Qed.

Lemma indexed_app_index o (kv : jsstring * V) n :
  array_index (fst kv) = Some n ->
  indexed (o ++ [kv]) = insert_after_index n kv (indexed o).
Proof.
  intros Hk. induction o as [|a r IH]; simpl.
  - now rewrite Hk.
  - destruct (array_index (fst a)); [|exact IH].
    now rewrite IH, insert_commute.
Qed.

Lemma indexed_app_named o (kv : jsstring * V) :
  array_index (fst kv) = None -> indexed (o ++ [kv]) = indexed o.
Proof.
  intros Hk. induction o as [|a r IH]; simpl.
  - now rewrite Hk.
  - now rewrite IH.
Qed.

Lemma indexed_entries o : indexed (Object_entries o) = indexed o.
Proof.
  unfold Object_entries.
  apply indexed_of_sorted;
    auto using indexed_sorted, indexed_tagged, named_unindexed.
Qed.

Lemma named_entries o : named (Object_entries o) = named o.
Proof.
  unfold Object_entries.
  apply named_of_sorted; auto using indexed_tagged, named_unindexed.
Qed.

(** A new property is listed at the same place whether it is created
    in an object or in its copy. *)
Lemma entries_app_entries o (kv : jsstring * V) :
  Object_entries (Object_entries o ++ [kv]) = Object_entries (o ++ [kv]).
Proof.
  unfold Object_entries at 1 3. unfold named. rewrite !filter_app.
  fold (named (Object_entries o)). fold (named o). rewrite named_entries.
  destruct (array_index (fst kv)) as [n|] eqn:Hk.
  - now rewrite !(indexed_app_index _ _ Hk), indexed_entries.
  - now rewrite !(indexed_app_named _ _ Hk), indexed_entries.
Qed.

Lemma insert_by_index_keyed (g : jsstring * V -> jsstring * V) n kv l :
  insert_by_index n (g kv) (map (fun x => (fst x, g (snd x))) l)
  = map (fun x => (fst x, g (snd x))) (insert_by_index n kv l).
Proof.
  induction l as [|[m kv'] r IH]; simpl; [reflexivity|].
  destruct (n <=? m); simpl; [reflexivity | now rewrite IH].
Qed.

(** Changing values without touching keys leaves the listing order. *)
Lemma Object_entries_keyed (g : jsstring * V -> jsstring * V) o :
  (forall kv, fst (g kv) = fst kv) ->
  Object_entries (map g o) = map g (Object_entries o).
Proof.
  intros Hg. unfold Object_entries, named. rewrite map_app, map_map.
  f_equal.
  - transitivity (map snd (map (fun x => (fst x, g (snd x))) (indexed o)));
      [|now rewrite map_map].
    f_equal. induction o as [|kv r IH]; simpl; [reflexivity|].
    rewrite Hg. destruct (array_index (fst kv)); [|exact IH].
    now rewrite IH, insert_by_index_keyed.
  - induction o as [|kv r IH]; simpl; [reflexivity|].
    rewrite Hg. destruct (is_index (fst kv)); simpl; now rewrite IH.
Qed.

Lemma with_value_absent o k (v : V) :
  ~ In k (map fst o) -> map (with_value k v) o = o.
Proof.
  induction o as [|[k' v'] r IH]; simpl; intros H; [reflexivity|].
  unfold with_value at 1. simpl.
  destruct (jseq k' k) eqn:E.
  - apply jseq_true in E. tauto.
  - rewrite IH; tauto.
Qed.

Lemma obj_set_present o k (v : V) :
  NoDup (map fst o) -> In k (map fst o) ->
  obj_set o k v = map (with_value k v) o.
Proof.
  induction o as [|[k' v'] r IH]; simpl; intros Hd Hin; [tauto|].
  inversion Hd as [|? ? Hn Hr]; subst.
  unfold with_value at 1. simpl.
  destruct (jseq k' k) eqn:E.
  - apply jseq_true in E. subst k'. now rewrite with_value_absent.
  - apply jseq_false in E. rewrite IH; tauto.
Qed.

(** Setting a property lists the own keys alike in an object and in
    its copy. *)
Lemma entries_obj_set_entries o k (v : V) :
  NoDup (map fst o) ->
  Object_entries (obj_set (Object_entries o) k v)
  = Object_entries (obj_set o k v).
Proof.
  intros Hd.
  assert (Hd' : NoDup (map fst (Object_entries o)))
    by now apply Object_keys_NoDup.
  destruct (in_dec (list_eq_dec N.eq_dec) k (map fst o)) as [Hin|Hout].
  - assert (Hin' : In k (map fst (Object_entries o))).
    { eapply Permutation_in; [|exact Hin].
      apply Permutation_map. symmetry. apply Object_entries_perm. }
    rewrite !obj_set_present by assumption.
    rewrite !Object_entries_keyed
      by (intros kv; unfold with_value; now destruct (jseq (fst kv) k)).
    f_equal. apply Object_entries_fixed, own_key_order_entries.
  - assert (Hout' : ~ In k (map fst (Object_entries o))).
    { intros H. apply Hout. eapply Permutation_in; [|exact H].
      apply Permutation_map. apply Object_entries_perm. }
    rewrite !obj_set_fresh by assumption.
    apply entries_app_entries.
Qed.
End OwnKeysChange.

(** The own keys of the form data of the component are those of the
    map of the specification. *)
Lemma after_changes_entries (changes : list FormChangeEvent)
    (c : AppComponent) (m : list (jsstring * FieldData)) :
  distinct_fields c -> NoDup (map fst m) ->
  Object_entries (activeFormData c) = Object_entries m ->
  Object_entries (activeFormData (after_changes changes c))
  = Object_entries (fold_left spec_onFieldChange changes m).
Proof.
  revert c m. unfold after_changes.
  induction changes as [|e r IH]; intros c m Hc Hm He; simpl; [exact He|].
  apply IH.
  - now apply handleFormChange_distinct.
  - unfold spec_onFieldChange. now apply obj_set_NoDup.
  - unfold handleFormChange, spec_onFieldChange. simpl.
    rewrite obj_spread_entries by exact Hc.
    rewrite He, entries_obj_set_entries by exact Hm. reflexivity.
Qed.

(** C2, as amended.  For every action id other than [open_settings]
    and form data that is not empty and has no field with the id
    [__proto__], the prompt handed to [sendMessage] is
    [User triggered action: {actionId}.], a blank line, the line
    [Submitted Form Data:] and the object that maps every field id to
    its value, printed with an indent of two spaces; the invalid ids
    are those of the entries with [isValid] false; the warning line
    that lists them is appended exactly when there is one; the display
    text is [Triggered Action: {actionId}], the marker of submitted
    data and, exactly when the warning is there, the marker of invalid
    fields.  When no send is in flight this is the prompt given to the
    agent client and kept in the user turn.  The members of the object
    and the invalid ids come in the order of the own keys of the form
    data: after any changes of an empty form, the ids that are array
    indices first, in ascending order, then the others in the order
    they were first set. *)
Theorem handleUiAction_submits_form :
  (forall (actionId : jsstring) (now : Z) (c : AppComponent),
     actionId <> lit "open_settings" ->
     activeFormData c <> [] ->
     distinct_fields c ->
     ~ In (lit "__proto__") (map fst (activeFormData c)) ->
     let fields := Object_entries (activeFormData c) in
     let prompt :=
       ((lit "User triggered action: " ++ actionId ++ lit ".")
        ++ [10; 10] ++ lit "Submitted Form Data:" ++ [10]
        ++ pretty_object (map field_value fields))
       ++ warning_line (invalid_ids fields) in
     let display :=
       ((lit "Triggered Action: " ++ actionId) ++ lit " (Submitted Data)")
       ++ invalid_marker (invalid_ids fields) in
     handleUiAction actionId now c
     = sendMessage (Some prompt) (Some display) now (set_activeFormData [] c)
     /\ (isLoading c = false ->
         snd (handleUiAction actionId now c)
         = [genAiService_generateResponse prompt
              (map history_entry (messages c))]
         /\ messages (fst (handleUiAction actionId now c))
            = messages c ++ [user_turn display prompt now]))
  /\ (forall (changes : list FormChangeEvent) (c : AppComponent),
        activeFormData c = [] ->
        Object_entries (activeFormData (after_changes changes c))
        = map snd (indexed (spec_form changes))
          ++ filter (fun kv => negb (is_index (fst kv))) (spec_form changes)
        /\ StronglySorted le_index (indexed (spec_form changes))
        /\ Forall tagged (indexed (spec_form changes))).
Proof.
  split.
  - intros actionId now c Ha Hne Hd Hp fields prompt display.
    assert (Hf : filter not_proto fields = fields).
    { apply forallb_filter_id. apply forallb_forall. intros kv Hin.
      unfold not_proto. apply negb_true_iff. apply jseq_false.
      intros Hk. apply Hp. rewrite <- Hk.
      apply (Permutation_in _ (Permutation_map fst
                                 (Object_entries_perm (activeFormData c)))).
      now apply in_map. }
    assert (Heq : handleUiAction actionId now c
                  = sendMessage (Some prompt) (Some display) now
                                (set_activeFormData [] c)).
    { unfold handleUiAction. apply jseq_false in Ha. rewrite Ha.
      rewrite (some_keys_some_data Hne).
      rewrite fold_assign_string
        by (simpl; now apply Object_keys_NoDup).
      fold fields. rewrite Hf.
      rewrite (app_nil_l (map field_value _)), stringify_values.
      - subst prompt display. fold (invalid_ids fields).
        destruct (invalid_ids fields) as [|i r];
          cbn [List.length Nat.ltb Nat.leb warning_line invalid_marker];
          [now rewrite !app_nil_r | reflexivity].
      - change field_value with (on_values value).
        rewrite Object_entries_map. f_equal.
        apply Object_entries_fixed, own_key_order_entries. }
    split; [exact Heq|]. intros Hl. rewrite Heq.
    assert (Ht : truthy (trim prompt) = true).
    { rewrite truthy_trim. reflexivity. }
    rewrite sendMessage_proceeds; [split; reflexivity | exact Ht | exact Hl].
  - intros changes c He. split; [|split].
    + unfold spec_form.
      rewrite (@after_changes_entries changes c []).
      * reflexivity.
      * unfold distinct_fields. rewrite He. constructor.
      * constructor.
      * now rewrite He.
    + apply indexed_sorted.
    + apply indexed_tagged.
Qed.

Lemma after_changes_distinct (changes : list FormChangeEvent)
    (c : AppComponent) :
  distinct_fields c -> distinct_fields (after_changes changes c).
Proof.
  revert c. unfold after_changes.
  induction changes as [|e r IH]; intros c H; simpl; [exact H|].
  apply IH. now apply handleFormChange_distinct.
Qed.

Lemma handleUiAction_submits_form_witness :
  snd (handleUiAction (lit "submit_order") 7 order_form)
  = [genAiService_generateResponse
       (lit "User triggered action: submit_order." ++ [10; 10]
        ++ lit "Submitted Form Data:" ++ [10]
        ++ lit "{" ++ [10]
        ++ requote (lit "  'name': 'foo',") ++ [10]
        ++ requote (lit "  'email': 'bad'") ++ [10]
        ++ lit "}" ++ [10; 10]
        ++ lit "Warning: The following fields have validation errors: email")
       (map history_entry (messages order_form))]
  /\ messages (fst (handleUiAction (lit "submit_order") 7 order_form))
     = messages order_form
       ++ [user_turn
             (lit "Triggered Action: submit_order (Submitted Data)"
              ++ [32; 9888; 65039] ++ lit " Invalid Fields")
             (lit "User triggered action: submit_order." ++ [10; 10]
              ++ lit "Submitted Form Data:" ++ [10]
              ++ lit "{" ++ [10]
              ++ requote (lit "  'name': 'foo',") ++ [10]
              ++ requote (lit "  'email': 'bad'") ++ [10]
              ++ lit "}" ++ [10; 10]
              ++ lit "Warning: The following fields have validation errors: email")
             7].
Proof.
  destruct (proj1 handleUiAction_submits_form (lit "submit_order") 7%Z
                  order_form)
    as [_ H].
  - vm_compute. discriminate.
  - vm_compute. discriminate.
  - apply after_changes_distinct. constructor.
  - vm_compute. intuition discriminate.
  - destruct (H eq_refl) as [H1 H2]. rewrite H1, H2. split; reflexivity.
Defined.

(** C2 as stated fails: the ids [2] and [1] were set in this order, and
    the warning of the dispatched prompt lists them as [1, 2]. *)
Lemma handleUiAction_insertion_order_counterexample :
  invalid_ids (spec_form swapped_changes) = [lit "2"; lit "1"]
  /\ snd (handleUiAction (lit "submit_order") 7 swapped_form)
     = [genAiService_generateResponse
          (lit "User triggered action: submit_order." ++ [10; 10]
           ++ lit "Submitted Form Data:" ++ [10]
           ++ lit "{" ++ [10]
           ++ requote (lit "  '1': 'y',") ++ [10]
           ++ requote (lit "  '2': 'x'") ++ [10]
           ++ lit "}" ++ [10; 10]
           ++ lit "Warning: The following fields have validation errors: 1, 2")
          (map history_entry (messages swapped_form))]
  /\ warning_line
       (invalid_ids (Object_entries (activeFormData swapped_form)))
     <> warning_line (invalid_ids (spec_form swapped_changes)).
Proof.
  split; [reflexivity|]. split; [reflexivity|].
  vm_compute. discriminate.
Qed.

(** A field whose id is [__proto__] is listed among the invalid ids but
    its value is not among the submitted values. *)
Example handleUiAction_proto_example :
  snd (handleUiAction (lit "go") 7
         (after_changes [field "__proto__" "z" false; field "name" "foo" true]
                        (constructor 0)))
  = [genAiService_generateResponse
       (lit "User triggered action: go." ++ [10; 10]
        ++ lit "Submitted Form Data:" ++ [10]
        ++ lit "{" ++ [10]
        ++ requote (lit "  'name': 'foo'") ++ [10]
        ++ lit "}" ++ [10; 10]
        ++ lit "Warning: The following fields have validation errors: __proto__")
       (map history_entry (messages (constructor 0)))].
Proof. reflexivity. Qed.

(** Where no field id is an array index, the form data of the component
    is the map of the specification, and the invalid ids are listed in
    the order they were set. *)
Lemma after_changes_refines (changes : list FormChangeEvent)
    (c : AppComponent) :
  Forall (fun e => is_index (ev_id e) = false) changes ->
  Forall (@unindexed FieldData) (activeFormData c) ->
  distinct_fields c ->
  activeFormData (after_changes changes c)
  = fold_left spec_onFieldChange changes (activeFormData c)
  /\ Forall (@unindexed FieldData) (activeFormData (after_changes changes c)).
Proof.
  intros Hc. revert c. unfold after_changes.
  induction Hc as [|e r He Hr IH]; intros c Hu Hd; simpl; [now split|].
  assert (Hs : activeFormData (handleFormChange e c)
               = spec_onFieldChange (activeFormData c) e).
  { unfold handleFormChange, spec_onFieldChange. simpl.
    rewrite obj_spread_entries by exact Hd.
    unfold Object_entries.
    now rewrite indexed_unindexed, named_of_unindexed. }
  destruct (IH (handleFormChange e c)) as [H1 H2].
  - rewrite Hs. unfold spec_onFieldChange.
    apply Forall_forall. intros kv Hin.
    assert (Hk : In (fst kv) (map fst (activeFormData c)) \/ fst kv = ev_id e).
    { destruct (in_dec (list_eq_dec N.eq_dec) (ev_id e)
                       (map fst (activeFormData c))) as [i|n].
      - left.
        rewrite <- (@obj_set_keys _ (activeFormData c) (ev_id e)
                      {| value := ev_value e; isValid := ev_isValid e |} i).
        apply in_map. exact Hin.
      - rewrite obj_set_fresh in Hin by exact n.
        apply in_app_or in Hin. destruct Hin as [Hin|[<-|[]]].
        + left. now apply in_map.
        + now right. }
    unfold unindexed. destruct Hk as [Hk|Hk]; [|now rewrite Hk].
    apply in_map_iff in Hk. destruct Hk as (kv' & Hf & Hin').
    rewrite Forall_forall in Hu. rewrite <- Hf. now apply Hu.
  - now apply handleFormChange_distinct.
  - rewrite <- Hs. now split.
Qed.

Lemma insertion_order_without_indices (changes : list FormChangeEvent)
    (now : Z) :
  Forall (fun e => is_index (ev_id e) = false) changes ->
  invalid_ids
    (Object_entries (activeFormData (after_changes changes (constructor now))))
  = invalid_ids (spec_form changes).
Proof.
  intros H.
  destruct (@after_changes_refines changes (constructor now) H) as [H1 H2];
    [constructor | constructor |].
  unfold Object_entries.
  rewrite indexed_unindexed, named_of_unindexed by exact H2.
  simpl. now rewrite H1.
Qed.

(** ** The history handed to the agent client *)

Lemma typed_hello_reachable : reachable typed_hello.
Proof.
  apply (@reachable_step (boot 0) (TypeInput (lit "hello")) typed_hello []).
  - apply reachable_boot.
  - reflexivity.
Defined.

Lemma history_entry_contribution (m : ChatMessage) :
  (role m = user -> promptContent m <> Some []) ->
  history_entry m = contribution m.
Proof.
  unfold history_entry, contribution. intros H.
  destruct (role m); [|reflexivity].
  destruct (promptContent m) as [[|x r]|]; simpl; try reflexivity.
  now destruct H.
Qed.

Lemma history_contributions (l : list ChatMessage) :
  prompts_present l -> map history_entry l = map contribution l.
Proof.
  induction 1 as [|m r Hm Hr IH]; simpl; [reflexivity|].
  now rewrite history_entry_contribution, IH.
Qed.

Lemma reachable_prompts_present (w : World) :
  reachable w -> prompts_present (messages (component w)).
Proof.
  intros Hw. destruct (reachable_invariant Hw) as (_ & H & _).
  eapply Forall_impl; [|exact H].
  intros m Hm Hr. unfold turn_ok in Hm. rewrite Hr in Hm.
  destruct Hm as (p & Hp & Ht). rewrite Hp. intros E.
  inversion E; subst. discriminate.
Qed.

(** [JSON.stringify] on numbers: integers, fractions, the exponent
    form from 1e21 on and below 1e-6, the shortest digits that read
    back, the zeros, and [null] for what is not finite. *)
Example stringify_numbers :
  stringify (JArr [JNum (of_Z 0); JNum 9223372036854775808;
                   JNum (of_Z 42); JNum (of_Z (-7));
                   JNum 4591870180066957722; JNum 4599676419421066581;
                   JNum 4921056587992461136; JNum 4890909195324358656;
                   JNum 4845873199050653696; JNum 4907451598986591450;
                   JNum 4517329193108106637; JNum 4502148214488346440;
                   JNum 1; JNum 9218868437227405311;
                   JNum 9218868437227405312; JNum 18442240474082181120;
                   JNum 9221120237041090560])
  = lit "[0,0,42,-7,0.1,0.3333333333333333,1e+21,9223372036854776000,9007199254740992,123456789012345680000,0.000001,1e-7,5e-324,1.7976931348623157e+308,null,null,null]".
Proof. vm_compute. reflexivity. Qed.

(** [JSON.stringify] on strings and nesting: quotes, the backslash and
    controls are escaped, a surrogate alone is escaped and a pair is
    kept, keys that are array indices come first. *)
Example stringify_strings :
  stringify (JObj [(lit "b", JStr ([34; 92; 10; 9; 1] ++ lit "x"));
                   (lit "10", JArr [JNull; JBool true; JObj []; JArr []]);
                   (lit "9", JStr [55357; 56832; 55357]);
                   (lit "a", JStr [233])])
  = requote (lit "{'9':'") ++ [55357; 56832] ++ lit "\ud83d"
    ++ requote (lit "','10':[null,true,{},[]],'b':'")
    ++ [92; 34; 92; 92; 92; 110; 92; 116] ++ lit "\u0001x"
    ++ requote (lit "','a':'") ++ [233] ++ requote (lit "'}").
Proof. vm_compute. reflexivity. Qed.

(** C3. A [sendMessage] that passes its guard hands the agent client a
    history with one entry for each turn that was there before the
    call, in order and without the user turn the call appends: for a
    user turn the text is its [promptContent] when present and its
    [content] otherwise, for a model turn the text [JSON.stringify]
    gives for its tree.  This holds whenever no user turn holds the
    empty string as its prompt, and so in every state of a session. *)
Theorem sendMessage_history :
  (forall w : World, reachable w -> prompts_present (messages (component w)))
  /\ (forall (c : AppComponent) (promptText displayText : option jsstring)
             (now : Z),
        prompts_present (messages c) ->
        truthy (trim (or_else promptText (userInput c))) = true ->
        isLoading c = false ->
        snd (sendMessage promptText displayText now c)
        = [genAiService_generateResponse (or_else promptText (userInput c))
             (map contribution (messages c))]
        /\ List.length (map contribution (messages c))
           = List.length (messages c)
        /\ messages (fst (sendMessage promptText displayText now c))
           = messages c
             ++ [user_turn
                   (or_else displayText (or_else promptText (userInput c)))
                   (or_else promptText (userInput c)) now]).
Proof.
  split; [exact reachable_prompts_present|].
  intros c promptText displayText now Hp Ht Hl.
  rewrite sendMessage_proceeds by assumption. simpl.
  rewrite (history_contributions Hp), length_map. repeat split.
Qed.

Lemma sendMessage_history_witness :
  snd (sendMessage (Some (lit "next")) None 9 mixed_history)
  = [genAiService_generateResponse (lit "next")
       [{| entry_role := model; parts := [{| text := Some greeting_json |}] |};
        {| entry_role := user;
           parts :=
             [{| text :=
                   Some (lit "Create a checklist of 5 things to do for a healthy morning routine.") |}] |};
        {| entry_role := user;
           parts := [{| text := Some (lit "plain words") |}] |};
        {| entry_role := model;
           parts :=
             [{| text :=
                   Some (requote (lit "{'type':'gauge','props':{'label':'Pi','value':3.14,'max':42,'scale':1e+21,'limit':9223372036854776000,'offset':-0.5,'unknown':null,'bold':false}}")) |}] |}]]
  /\ messages (fst (sendMessage (Some (lit "next")) None 9 mixed_history))
     = messages mixed_history ++ [user_turn (lit "next") (lit "next") 9].
Proof.
  destruct (proj2 sendMessage_history mixed_history (Some (lit "next")) None
                  9%Z)
    as (H1 & _ & H2).
  - repeat constructor; simpl; discriminate.
  - reflexivity.
  - reflexivity.
  - rewrite H1, H2. split; vm_compute; reflexivity.
Defined.

(** C4. A [sendMessage] whose resolved prompt, [promptText || userInput],
    is empty or made of white space only, or that is called while a send
    is in flight, does nothing: the component is unchanged (no turn is
    appended, [isLoading] keeps its value) and the agent client is not
    called. *)
Theorem sendMessage_guard (promptText displayText : option jsstring)
    (now : Z) (w : World) :
  forallb isWhiteSpace (or_else promptText (userInput (component w))) = true
  \/ isLoading (component w) = true ->
  sendMessage promptText displayText now (component w) = (component w, [])
  /\ step w (SendMessage promptText displayText now) = Some (w, []).
Proof.
  intros H.
  assert (Hs : sendMessage promptText displayText now (component w)
               = (component w, [])).
  { apply sendMessage_returns. rewrite truthy_trim.
    destruct H as [H|H]; [left; now rewrite H | now right]. }
  split; [exact Hs|]. simpl. rewrite Hs. now destruct w.
Qed.

Lemma sendMessage_guard_witness :
  sendMessage None None 1 (component typed_blanks)
  = (component typed_blanks, [])
  /\ step typed_blanks (SendMessage None None 1) = Some (typed_blanks, []).
Proof.
  apply (@sendMessage_guard None None 1 typed_blanks).
  left. reflexivity.
Defined.

(** C5. When [generateResponse] is rejected the component is idle again
    and holds the turns it had before the call and the user turn the
    call appended, one turn more; the rejection itself, in whatever
    state it arrives, leaves the turns as they are, clears [isLoading]
    and only writes to the console. *)
Theorem sendMessage_rejected_keeps_user_turn
    (promptText displayText : option jsstring) (now : Z)
    (c : AppComponent) :
  truthy (trim (or_else promptText (userInput c))) = true ->
  isLoading c = false ->
  let textToSend := or_else promptText (userInput c) in
  let sent := fst (sendMessage promptText displayText now c) in
  let failed := fst (sendMessage_rejected sent) in
  isLoading sent = true
  /\ isLoading failed = false
  /\ messages failed
     = messages c ++ [user_turn (or_else displayText textToSend)
                                textToSend now]
  /\ List.length (messages failed) = S (List.length (messages c))
  /\ (forall c' : AppComponent,
        messages (fst (sendMessage_rejected c')) = messages c'
        /\ isLoading (fst (sendMessage_rejected c')) = false
        /\ snd (sendMessage_rejected c') = [console_error None]).
Proof.
  intros Ht Hl textToSend sent failed. unfold failed, sent, textToSend.
  rewrite sendMessage_proceeds by assumption. simpl.
  repeat split. rewrite length_app. simpl. lia.
Qed.

Lemma sendMessage_rejected_keeps_user_turn_witness :
  isLoading (fst (sendMessage None None 1 (component typed_hello))) = true
  /\ isLoading
       (fst (sendMessage_rejected
               (fst (sendMessage None None 1 (component typed_hello)))))
     = false
  /\ messages
       (fst (sendMessage_rejected
               (fst (sendMessage None None 1 (component typed_hello)))))
     = messages (component typed_hello)
       ++ [user_turn (lit "hello") (lit "hello") 1]
  /\ List.length
       (messages
          (fst (sendMessage_rejected
                  (fst (sendMessage None None 1 (component typed_hello))))))
     = S (List.length (messages (component typed_hello)))
  /\ (forall c' : AppComponent,
        messages (fst (sendMessage_rejected c')) = messages c'
        /\ isLoading (fst (sendMessage_rejected c')) = false
        /\ snd (sendMessage_rejected c') = [console_error None]).
Proof.
  exact (@sendMessage_rejected_keeps_user_turn None None 1
           (component typed_hello) eq_refl eq_refl).
Defined.

(** C6. The action [open_settings] opens the settings and nothing
    else: no turn is appended, the form data is as before, and nothing
    is sent. *)
Theorem handleUiAction_open_settings (now : Z) (c : AppComponent) :
  handleUiAction (lit "open_settings") now c = (set_isSettingsOpen true c, [])
  /\ isSettingsOpen (fst (handleUiAction (lit "open_settings") now c)) = true
  /\ activeFormData (fst (handleUiAction (lit "open_settings") now c))
     = activeFormData c
  /\ messages (fst (handleUiAction (lit "open_settings") now c)) = messages c
  /\ isLoading (fst (handleUiAction (lit "open_settings") now c))
     = isLoading c
  /\ snd (handleUiAction (lit "open_settings") now c) = [].
Proof.
  unfold handleUiAction. rewrite jseq_refl. repeat split.
Qed.

(** ** Connecting *)

Lemma truthy_false (s : jsstring) : truthy s = false <-> s = [].
Proof. destruct s; split; intros H; try reflexivity; discriminate. Qed.

Lemma form_invalid_iff (f : ConfigForm) :
  form_invalid f = true
  <-> endpoint (form_value f) = [] \/ api_key (form_value f) = []
      \/ deployment_name (form_value f) = []
      \/ api_version (form_value f) = [].
Proof.
  unfold form_invalid. rewrite negb_true_iff, !andb_false_iff.
  rewrite !truthy_false. tauto.
Qed.

(** C7. With one of [endpoint], [api_key], [deployment_name] and
    [api_version] empty, [connectAgent] returns before any call: the
    agent client is not called, the connection status (and the
    connecting flag) is as before and no turn is appended.  When the
    call of the agent client is fulfilled the status becomes
    [connected] and exactly one model turn, the acknowledgement, is
    appended; when it is rejected the status becomes [error] and no turn
    is appended. *)
Theorem connectAgent_outcomes :
  (forall c : AppComponent,
     endpoint (form_value (configForm c)) = []
     \/ api_key (form_value (configForm c)) = []
     \/ deployment_name (form_value (configForm c)) = []
     \/ api_version (form_value (configForm c)) = [] ->
     connectAgent c
     = (set_configForm (markAllAsTouched (configForm c)) c, [])
     /\ snd (connectAgent c) = []
     /\ connectionStatus (fst (connectAgent c)) = connectionStatus c
     /\ isConnecting (fst (connectAgent c)) = isConnecting c
     /\ messages (fst (connectAgent c)) = messages c)
  /\ (forall (config : AgentConfig) (now : Z) (c : AppComponent),
        connectionStatus (fst (connectAgent_fulfilled config now c))
        = connected
        /\ messages (fst (connectAgent_fulfilled config now c))
           = messages c ++ [model_turn (connected_message config) now])
  /\ (forall c : AppComponent,
        connectionStatus (fst (connectAgent_rejected c)) = error
        /\ messages (fst (connectAgent_rejected c)) = messages c).
Proof.
  split; [|now repeat split].
  intros c H. apply form_invalid_iff in H.
  unfold connectAgent. rewrite H. repeat split.
Qed.

(** Scenario 4 of the specification, on the form as constructed: its
    endpoint is empty. *)
Lemma connectAgent_outcomes_witness :
  connectAgent (constructor 0)
  = (set_configForm (markAllAsTouched (configForm (constructor 0)))
                    (constructor 0), [])
  /\ snd (connectAgent (constructor 0)) = []
  /\ connectionStatus (fst (connectAgent (constructor 0)))
     = connectionStatus (constructor 0)
  /\ isConnecting (fst (connectAgent (constructor 0)))
     = isConnecting (constructor 0)
  /\ messages (fst (connectAgent (constructor 0)))
     = messages (constructor 0).
Proof.
  apply (proj1 connectAgent_outcomes (constructor 0)). left. reflexivity.
Defined.

(** With the four fields filled in, the agent client is called with the
    values of the form. *)
Lemma connectAgent_calls (c : AppComponent) :
  form_invalid (configForm c) = false ->
  snd (connectAgent c)
  = [genAiService_connect
       {| endpoint := endpoint (form_value (configForm c));
          api_key := api_key (form_value (configForm c));
          deployment_name := deployment_name (form_value (configForm c));
          api_version := api_version (form_value (configForm c));
          mcp_servers :=
            or_else (Some (mcp_servers (form_value (configForm c)))) [] |}]
  /\ messages (fst (connectAgent c)) = messages c.
Proof.
  intros H. unfold connectAgent. rewrite H. now split.
Qed.

(** ** Determinism of the history *)

(** C8. The history handed to the agent client is a function of the
    turns alone: two sends from states that hold the same turns,
    whatever else differs (the prompt, the input, the clock, the form
    data, the connection), hand over the same entries. *)
Theorem history_deterministic (c1 c2 : AppComponent)
    (p1 d1 p2 d2 : option jsstring) (now1 now2 : Z)
    (text1 text2 : jsstring) (history1 history2 : list HistoryEntry) :
  messages c1 = messages c2 ->
  In (genAiService_generateResponse text1 history1)
     (snd (sendMessage p1 d1 now1 c1)) ->
  In (genAiService_generateResponse text2 history2)
     (snd (sendMessage p2 d2 now2 c2)) ->
  history1 = history2.
Proof.
  intros Hm H1 H2.
  destruct (sendMessage_cases p1 d1 now1 c1) as [E1|(E1 & _ & _)];
    rewrite E1 in H1; simpl in H1; [tauto|].
  destruct (sendMessage_cases p2 d2 now2 c2) as [E2|(E2 & _ & _)];
    rewrite E2 in H2; simpl in H2; [tauto|].
  destruct H1 as [H1|[]], H2 as [H2|[]].
  inversion H1; inversion H2; subst. now rewrite Hm.
Qed.

(** Two sends over the turns of [order_form]: one of a typed text at
    time 1, one of a prompt with a display text at time 2 after the
    settings were opened. *)
Lemma history_deterministic_witness :
  map history_entry (messages (set_userInput (lit "hello") order_form))
  = map history_entry (messages (toggleSettings (constructor 0))).
Proof.
  apply (@history_deterministic
           (set_userInput (lit "hello") order_form)
           (toggleSettings (constructor 0))
           None None (Some (lit "prompt")) (Some (lit "shown")) 1 2
           (lit "hello") (lit "prompt")).
  - reflexivity.
  - left. reflexivity.
  - left. reflexivity.
Defined.

(** ** Actions while a send is in flight *)

(** C9. An action other than [open_settings] that arrives while a send
    is in flight empties the form data and nothing else: [sendMessage]
    returns at its guard, so no turn is appended, the agent client is
    not called, and the submitted values reach no prompt. *)
Theorem handleUiAction_while_sending (actionId : jsstring) (now : Z)
    (c : AppComponent) :
  actionId <> lit "open_settings" ->
  isLoading c = true ->
  activeFormData c <> [] ->
  handleUiAction actionId now c = (set_activeFormData [] c, [])
  /\ activeFormData (fst (handleUiAction actionId now c)) = []
  /\ messages (fst (handleUiAction actionId now c)) = messages c
  /\ snd (handleUiAction actionId now c) = [].
Proof.
  intros Ha Hl _.
  destruct (handleUiAction_sends now c Ha) as (p & d & ->).
  rewrite sendMessage_returns; [repeat split | now right].
Qed.

Lemma handleUiAction_while_sending_witness :
  handleUiAction (lit "submit_order") 7 order_form_sending
  = (set_activeFormData [] order_form_sending, [])
  /\ activeFormData
       (fst (handleUiAction (lit "submit_order") 7 order_form_sending)) = []
  /\ messages (fst (handleUiAction (lit "submit_order") 7 order_form_sending))
     = messages order_form_sending
  /\ snd (handleUiAction (lit "submit_order") 7 order_form_sending) = [].
Proof.
  apply (@handleUiAction_while_sending (lit "submit_order") 7
           order_form_sending).
  - vm_compute. discriminate.
  - reflexivity.
  - vm_compute. discriminate.
Defined.

(** ** The greeting *)

Lemma stringify_greeting : stringify greeting = greeting_json.
Proof. vm_compute. reflexivity. Qed.

Lemma history_entry_greeting (now : Z) :
  history_entry (model_turn greeting now) = greeting_entry.
Proof.
  unfold history_entry, greeting_entry. simpl.
  now rewrite stringify_greeting.
Qed.

(** C10 as stated fails: the first [sendMessage] of this session hands
    over two entries, the greeting and the acknowledgement of the
    connection. *)
Lemma first_send_after_connect_counterexample :
  option_map snd (run (boot 0) connect_then_send)
  = Some [genAiService_connect configured;
          genAiService_generateResponse (lit "hi")
            [greeting_entry;
             {| entry_role := model;
                parts :=
                  [{| text :=
                        Some (stringify (connected_message configured)) |}]
             |}]]
  /\ List.length
       [greeting_entry;
        {| entry_role := model;
           parts :=
             [{| text := Some (stringify (connected_message configured)) |}]
        |}] = 2%nat.
Proof.
  split; [|reflexivity]. vm_compute. reflexivity.
Qed.

(** C10, as amended.  The constructor appends exactly one model turn,
    the greeting; it stays the first turn in every state of the session,
    so the history is never empty, and the history handed over by any
    [sendMessage] starts with the model entry that holds the JSON text
    of the greeting tree; it is that entry alone when the greeting is
    the only turn so far, that is when nothing else (such as the
    acknowledgement of a connection) was appended before the send. *)
Theorem greeting_heads_history :
  (forall now, messages (constructor now) = [model_turn greeting now])
  /\ (forall w, reachable w ->
        exists now rest,
          messages (component w) = model_turn greeting now :: rest)
  /\ (forall w p d t text history,
        reachable w ->
        In (genAiService_generateResponse text history)
           (snd (sendMessage p d t (component w))) ->
        exists rest, history = greeting_entry :: rest)
  /\ (forall c now p d t text history,
        messages c = [model_turn greeting now] ->
        In (genAiService_generateResponse text history)
           (snd (sendMessage p d t c)) ->
        history = [greeting_entry])
  /\ text (hd {| text := None |} (parts greeting_entry))
     = Some (stringify greeting).
Proof.
  split; [reflexivity|]. split.
  { intros w Hw. now destruct (reachable_invariant Hw) as (H & _). }
  split.
  { intros w p d t text0 history Hw Hin.
    destruct (reachable_invariant Hw) as ((now & rest & Hm) & _).
    destruct (sendMessage_cases p d t (component w)) as [E|(E & _ & _)];
      rewrite E in Hin; simpl in Hin; [tauto|].
    destruct Hin as [Hin|[]]. inversion Hin; subst.
    rewrite Hm. simpl. rewrite history_entry_greeting. eauto. }
  split.
  { intros c now p d t text0 history Hm Hin.
    destruct (sendMessage_cases p d t c) as [E|(E & _ & _)];
      rewrite E in Hin; simpl in Hin; [tauto|].
    destruct Hin as [Hin|[]]. inversion Hin; subst.
    rewrite Hm. simpl. now rewrite history_entry_greeting. }
  simpl. now rewrite stringify_greeting.
Qed.

Lemma greeting_heads_history_witness :
  map history_entry (messages (component typed_hello)) = [greeting_entry].
Proof.
  destruct greeting_heads_history as (_ & _ & _ & H & _).
  apply (H (component typed_hello) 0%Z None None 1%Z (lit "hello")).
  - reflexivity.
  - left. reflexivity.
Defined.

(** * Further properties of the component *)

(** ** Reading the form data *)

Section Lookup.
Variable V : Type.
Implicit Types (o : JsObject V) (k : jsstring) (v : V).

Lemma obj_get_set_same o k v : obj_get (obj_set o k v) k = Some v.
Proof.
  induction o as [|[k' v'] r IH]; simpl.
  - now rewrite jseq_refl.
  - destruct (jseq k' k) eqn:E; simpl; rewrite E; [reflexivity | exact IH].
Qed.

Lemma obj_get_set_other o k k' v :
  k' <> k -> obj_get (obj_set o k v) k' = obj_get o k'.
Proof.
  intros Hk. induction o as [|[k0 v0] r IH]; simpl.
  - apply not_eq_sym in Hk. apply jseq_false in Hk. now rewrite Hk.
  - destruct (jseq k0 k) eqn:E; simpl; [|now rewrite IH].
    apply jseq_true in E. subst k0.
    apply not_eq_sym in Hk. apply jseq_false in Hk. now rewrite Hk.
Qed.

Lemma obj_get_In o k v : obj_get o k = Some v -> In (k, v) o.
Proof.
  induction o as [|[k' v'] r IH]; simpl; [discriminate|].
  destruct (jseq k' k) eqn:E.
  - apply jseq_true in E. intros H. left. congruence.
  - intros H. right. now apply IH.
Qed.

Lemma obj_get_None o k : obj_get o k = None -> ~ In k (map fst o).
Proof.
  induction o as [|[k' v'] r IH]; simpl; [tauto|].
  destruct (jseq k' k) eqn:E; [discriminate|].
  apply jseq_false in E. intros H [Hk|Hk]; [tauto | now apply IH].
Qed.

Lemma In_obj_get o k v :
  NoDup (map fst o) -> In (k, v) o -> obj_get o k = Some v.
Proof.
  induction o as [|[k' v'] r IH]; simpl; [tauto|].
  intros Hd [H|H].
  - inversion H; subst. now rewrite jseq_refl.
  - inversion Hd as [|? ? Hn Hr]; subst.
    destruct (jseq k' k) eqn:E; [|now apply IH].
    apply jseq_true in E. subst k'. exfalso. apply Hn.
    change k with (fst (k, v)). now apply in_map.
Qed.

(** Reading a key does not depend on the order of the table. *)
Lemma obj_get_perm o o' k :
  NoDup (map fst o) -> Permutation o o' -> obj_get o k = obj_get o' k.
Proof.
  intros Hd Hp.
  assert (Hd' : NoDup (map fst o')).
  { eapply Permutation_NoDup; [|exact Hd]. now apply Permutation_map. }
  destruct (obj_get o k) as [v|] eqn:E.
  - symmetry. apply In_obj_get; [exact Hd'|].
    eapply Permutation_in; [exact Hp|]. now apply obj_get_In.
  - destruct (obj_get o' k) as [v'|] eqn:E'; [|reflexivity].
    apply obj_get_In in E'. apply Permutation_sym in Hp.
    apply (Permutation_in _ Hp) in E'.
    apply In_obj_get in E'; [congruence | exact Hd].
Qed.

Lemma obj_get_entries o k :
  NoDup (map fst o) -> obj_get (Object_entries o) k = obj_get o k.
Proof.
  intros Hd. symmetry. apply obj_get_perm; [exact Hd|].
  symmetry. apply Object_entries_perm.
Qed.

Lemma obj_set_length o k v :
  List.length (obj_set o k v)
  = match obj_get o k with
    | Some _ => List.length o
    | None => S (List.length o)
    end.
Proof.
  induction o as [|[k' v'] r IH]; simpl; [reflexivity|].
  destruct (jseq k' k); simpl; [reflexivity|].
  rewrite IH. now destruct (obj_get r k).
Qed.
End Lookup.

Lemma handleFormChange_table (event : FormChangeEvent) (c : AppComponent) :
  distinct_fields c ->
  activeFormData (handleFormChange event c)
  = obj_set (Object_entries (activeFormData c)) (ev_id event)
            (field_data event).
Proof.
  intros Hd. unfold handleFormChange. simpl.
  now rewrite obj_spread_entries.
Qed.

(** X1. A change event sets the field it names and no other: reading
    its id gives the reported value and validity, reading any other id
    gives what it gave before, the table grows by one entry exactly
    when the id was not there, and turns and flags are untouched. *)
Theorem handleFormChange_lookup (event : FormChangeEvent)
    (c : AppComponent) :
  distinct_fields c ->
  obj_get (activeFormData (handleFormChange event c)) (ev_id event)
  = Some (field_data event)
  /\ (forall k, k <> ev_id event ->
        obj_get (activeFormData (handleFormChange event c)) k
        = obj_get (activeFormData c) k)
  /\ List.length (activeFormData (handleFormChange event c))
     = match obj_get (activeFormData c) (ev_id event) with
       | Some _ => List.length (activeFormData c)
       | None => S (List.length (activeFormData c))
       end
  /\ messages (handleFormChange event c) = messages c
  /\ isLoading (handleFormChange event c) = isLoading c
  /\ userInput (handleFormChange event c) = userInput c.
Proof.
  intros Hd. rewrite (handleFormChange_table event Hd).
  split; [apply obj_get_set_same|]. split.
  { intros k Hk. rewrite obj_get_set_other by exact Hk.
    now apply obj_get_entries. }
  split; [|repeat split].
  rewrite obj_set_length, obj_get_entries by exact Hd.
  now rewrite (Permutation_length (Object_entries_perm (activeFormData c))).
Qed.

Lemma order_form_distinct : distinct_fields order_form.
Proof. apply after_changes_distinct. constructor. Defined.

Lemma handleFormChange_lookup_witness :
  obj_get (activeFormData (handleFormChange (field "email" "a@b.c" true)
                                            order_form))
          (lit "email")
  = Some {| value := lit "a@b.c"; isValid := true |}
  /\ (forall k, k <> lit "email" ->
        obj_get (activeFormData (handleFormChange (field "email" "a@b.c" true)
                                                  order_form)) k
        = obj_get (activeFormData order_form) k)
  /\ List.length (activeFormData (handleFormChange (field "email" "a@b.c" true)
                                                   order_form))
     = 2%nat
  /\ messages (handleFormChange (field "email" "a@b.c" true) order_form)
     = messages order_form
  /\ isLoading (handleFormChange (field "email" "a@b.c" true) order_form)
     = isLoading order_form
  /\ userInput (handleFormChange (field "email" "a@b.c" true) order_form)
     = userInput order_form.
Proof.
  exact (@handleFormChange_lookup (field "email" "a@b.c" true) order_form
           order_form_distinct).
Defined.

(** X2. After any sequence of change events, a field reads as the last
    event that named it reported it; a field no event named reads as
    before. *)
Theorem after_changes_latest (changes : list FormChangeEvent)
    (c : AppComponent) (id : jsstring) :
  distinct_fields c ->
  obj_get (activeFormData (after_changes changes c)) id
  = match last_change id changes with
    | Some d => Some d
    | None => obj_get (activeFormData c) id
    end.
Proof.
  revert c. unfold after_changes.
  induction changes as [|e r IH]; intros c Hd; simpl; [reflexivity|].
  rewrite IH by now apply handleFormChange_distinct.
  destruct (last_change id r); [reflexivity|].
  rewrite (handleFormChange_table e Hd).
  destruct (jseq (ev_id e) id) eqn:E.
  - apply jseq_true in E. subst id. apply obj_get_set_same.
  - apply jseq_false in E. rewrite obj_get_set_other by congruence.
    now apply obj_get_entries.
Qed.

Lemma after_changes_latest_witness :
  obj_get (activeFormData
             (after_changes [field "email" "a@b.c" true;
                             field "7" "x" true;
                             field "email" "oops" false]
                            order_form))
          (lit "email")
  = Some {| value := lit "oops"; isValid := false |}.
Proof.
  exact (@after_changes_latest
           [field "email" "a@b.c" true; field "7" "x" true;
            field "email" "oops" false]
           order_form (lit "email") order_form_distinct).
Defined.

(** ** One event at a time *)

Lemma truthy_or_else (a : option jsstring) (b : jsstring) :
  truthy b = true -> truthy (or_else a b) = true.
Proof.
  intros H. destruct a as [s|]; simpl; [|exact H].
  destruct (truthy s) eqn:E; [exact E | exact H].
Qed.

(** [sendMessage] either returns at its guard, or appends one user turn
    and makes one call. *)
Lemma sendMessage_turn (promptText displayText : option jsstring)
    (now : Z) (c : AppComponent) :
  sendMessage promptText displayText now c = (c, [])
  \/ exists d p,
       sendMessage promptText displayText now c
       = (set_isLoading true
            (set_userInput []
               (set_messages (messages c ++ [user_turn d p now]) c)),
          [genAiService_generateResponse p (map history_entry (messages c))])
       /\ truthy (trim p) = true /\ truthy d = true
       /\ isLoading c = false.
Proof.
  destruct (sendMessage_cases promptText displayText now c)
    as [H|(H & Ht & Hl)]; [now left | right].
  eexists. eexists. split; [exact H|]. split; [exact Ht|].
  split; [|exact Hl]. apply truthy_or_else. now apply truthy_of_trim.
Qed.

(** Every action but [open_settings] hands [sendMessage] a prompt that
    is not blank. *)
Lemma handleUiAction_sends_prompt (actionId : jsstring) (now : Z)
    (c : AppComponent) :
  actionId <> lit "open_settings" ->
  exists prompt display,
    handleUiAction actionId now c
    = sendMessage (Some prompt) (Some display) now (set_activeFormData [] c)
    /\ truthy (trim prompt) = true.
Proof.
  intros Ha. apply jseq_false in Ha. unfold handleUiAction. rewrite Ha.
  destruct (0 <? List.length (Object_keys (activeFormData c)))%nat eqn:E.
  - match goal with |- context [if ?b then _ else _] => destruct b end;
      eexists; eexists; (split; [reflexivity|]);
      rewrite truthy_trim; reflexivity.
  - apply no_keys_no_data in E.
    assert (Hc : set_activeFormData [] c = c).
    { pose proof (set_activeFormData_same c) as H. now rewrite E in H. }
    rewrite Hc.
    repeat match goal with |- context [if ?b then _ else _] => destruct b end;
      eexists; eexists; (split; [reflexivity|]);
      rewrite truthy_trim; reflexivity.
Qed.

(** [handleUiAction] either appends nothing and calls nothing, or
    appends one user turn and makes one call. *)
Lemma handleUiAction_turn (actionId : jsstring) (now : Z)
    (c : AppComponent) :
  (messages (fst (handleUiAction actionId now c)) = messages c
   /\ isLoading (fst (handleUiAction actionId now c)) = isLoading c
   /\ isConnecting (fst (handleUiAction actionId now c)) = isConnecting c
   /\ connectionStatus (fst (handleUiAction actionId now c))
      = connectionStatus c
   /\ snd (handleUiAction actionId now c) = [])
  \/ exists d p,
       messages (fst (handleUiAction actionId now c))
       = messages c ++ [user_turn d p now]
       /\ isLoading (fst (handleUiAction actionId now c)) = true
       /\ isConnecting (fst (handleUiAction actionId now c)) = isConnecting c
       /\ connectionStatus (fst (handleUiAction actionId now c))
          = connectionStatus c
       /\ snd (handleUiAction actionId now c)
          = [genAiService_generateResponse p
               (map history_entry (messages c))]
       /\ truthy (trim p) = true /\ truthy d = true
       /\ isLoading c = false.
Proof.
  destruct (list_eq_dec N.eq_dec actionId (lit "open_settings")) as [->|Ha].
  - left. unfold handleUiAction. rewrite jseq_refl. repeat split.
  - destruct (handleUiAction_sends now c Ha) as (p0 & d0 & ->).
    destruct (sendMessage_turn (Some p0) (Some d0) now
                               (set_activeFormData [] c))
      as [H|(d & p & H & Ht & Hd & Hl)]; rewrite H.
    + left. repeat split.
    + right. exists d, p. repeat split; assumption.
Qed.

(** What one event does to the turns, the flags and the pending calls. *)
Lemma step_effect (w w' : World) (e : Event) (effects : list Effect) :
  step w e = Some (w', effects) ->
  let c := component w in
  let c' := component w' in
  (* nothing is appended, no call of generateResponse *)
  (messages c' = messages c /\ generate_calls effects = 0%nat
   /\ isLoading c' = isLoading c
   /\ pending_generate w' = pending_generate w)
  (* a user turn and its call *)
  \/ (exists d p now,
        messages c' = messages c ++ [user_turn d p now]
        /\ effects = [genAiService_generateResponse p
                        (map history_entry (messages c))]
        /\ truthy (trim p) = true /\ truthy d = true
        /\ isLoading c = false /\ isLoading c' = true
        /\ pending_generate w' = S (pending_generate w))
  (* a reply of the agent *)
  \/ (exists tree now g,
        messages c' = messages c ++ [model_turn tree now]
        /\ effects = []
        /\ isLoading c' = false
        /\ pending_generate w = S g /\ pending_generate w' = g)
  (* a rejected send *)
  \/ (exists g,
        messages c' = messages c /\ generate_calls effects = 0%nat
        /\ isLoading c' = false
        /\ pending_generate w = S g /\ pending_generate w' = g)
  (* the acknowledgement of a connection *)
  \/ (exists config now,
        messages c' = messages c ++ [model_turn (connected_message config) now]
        /\ effects = []
        /\ isLoading c' = isLoading c
        /\ pending_generate w' = pending_generate w
        /\ connectionStatus c' = connected).
Proof.
  destruct e; simpl; intros H.
  - inversion H; subst. left. repeat split.
  - inversion H; subst. left. repeat split.
  - inversion H; subst. left. repeat split.
  - unfold after_call, connectAgent in H.
    destruct (form_invalid (configForm (component w)));
      simpl in H; inversion H; subst; left; repeat split.
  - unfold after_call in H.
    destruct (sendMessage_turn promptText displayText now (component w))
      as [E|(d & p & E & Ht & Hd & Hl)]; rewrite E in H; simpl in H;
      inversion H; subst; simpl.
    + left. repeat split.
    + right. left. exists d, p, now. repeat split; assumption.
  - inversion H; subst. left. repeat split.
  - unfold after_call in H.
    destruct (handleUiAction_turn actionId now (component w))
      as [(Hm & Hl & _ & _ & He)|(d & p & Hm & Hl' & _ & _ & He & Ht & Hd & Hl)];
      destruct (handleUiAction actionId now (component w)) as [c1 effs];
      simpl in *; subst effs; simpl in H; inversion H; subst; simpl.
    + left. repeat split; assumption.
    + right. left. exists d, p, now. repeat split; assumption.
  - destruct (pending_generate w) as [|g] eqn:Eg; [discriminate|].
    inversion H; subst. simpl. right. right. left.
    exists uiResponse, now, g. repeat split.
  - destruct (pending_generate w) as [|g] eqn:Eg; [discriminate|].
    inversion H; subst. simpl. right. right. right. left.
    exists g. repeat split.
  - destruct (nth_error (pending_connect w) n) as [config|]; [|discriminate].
    inversion H; subst. simpl. right. right. right. right.
    exists config, now. repeat split.
  - destruct (nth_error (pending_connect w) n); [|discriminate].
    inversion H; subst. simpl. left. repeat split.
Qed.

(** What one event does to the connection. *)
Lemma step_connection (w w' : World) (e : Event) (effects : list Effect) :
  step w e = Some (w', effects) ->
  let c := component w in
  let c' := component w' in
  (isConnecting c' = isConnecting c
   /\ pending_connect w' = pending_connect w
   /\ connectionStatus c' = connectionStatus c)
  \/ (exists config,
        isConnecting c' = true
        /\ pending_connect w' = pending_connect w ++ [config]
        /\ connectionStatus c' = disconnected)
  \/ (isConnecting c' = false /\ connectionStatus c' = error)
  \/ (exists config now,
        isConnecting c' = false /\ connectionStatus c' = connected
        /\ messages c'
           = messages c ++ [model_turn (connected_message config) now]).
Proof.
  destruct e; simpl; intros H.
  - inversion H; subst. left. repeat split.
  - inversion H; subst. left. repeat split.
  - inversion H; subst. left. repeat split.
  - unfold after_call, connectAgent in H.
    destruct (form_invalid (configForm (component w)));
      simpl in H; inversion H; subst; simpl.
    + left. repeat split.
    + right. left. eexists. repeat split.
  - unfold after_call in H.
    destruct (sendMessage_turn promptText displayText now (component w))
      as [E|(d & p & E & _)]; rewrite E in H; simpl in H;
      inversion H; subst; simpl; left; repeat split.
  - inversion H; subst. left. repeat split.
  - unfold after_call in H.
    destruct (handleUiAction_turn actionId now (component w))
      as [(_ & _ & Hc & Hs & He)|(d & p & _ & _ & Hc & Hs & He & _)];
      destruct (handleUiAction actionId now (component w)) as [c1 effs];
      simpl in *; subst effs; simpl in H; inversion H; subst; simpl;
      left; repeat split; assumption.
  - destruct (pending_generate w); [discriminate|].
    inversion H; subst. left. repeat split.
  - destruct (pending_generate w); [discriminate|].
    inversion H; subst. left. repeat split.
  - destruct (nth_error (pending_connect w) n) as [config|]; [|discriminate].
    inversion H; subst. simpl. right. right. right.
    exists config, now. repeat split.
  - destruct (nth_error (pending_connect w) n); [|discriminate].
    inversion H; subst. simpl. right. right. left. repeat split.
Qed.

Lemma run_reachable (events : list Event) (w w' : World)
    (effects : list Effect) :
  reachable w -> run w events = Some (w', effects) -> reachable w'.
Proof.
  revert w effects. induction events as [|e r IH]; simpl; intros w effects Hw H.
  - inversion H; subst. exact Hw.
  - destruct (step w e) as [[w1 effs1]|] eqn:Es; [|discriminate].
    destruct (run w1 r) as [[w2 effs2]|] eqn:Er; [|discriminate].
    inversion H; subst. eapply IH; [|exact Er].
    eapply reachable_step; [exact Hw | exact Es].
Qed.

Lemma world_after_reachable (events : list Event) :
  reachable (world_after events).
Proof.
  unfold world_after.
  destruct (run (boot 0) events) as [[w effs]|] eqn:E.
  - eapply run_reachable; [apply reachable_boot | exact E].
  - apply reachable_boot.
Qed.

(** ** Sends in flight *)

(** X3. At most one call of [generateResponse] is pending at any time
    of a session, and [isLoading] says exactly whether one is. *)
Theorem single_flight (w : World) :
  reachable w ->
  pending_generate w = (if isLoading (component w) then 1 else 0)%nat
  /\ (pending_generate w <= 1)%nat.
Proof.
  intros Hw.
  assert (H : pending_generate w
              = (if isLoading (component w) then 1 else 0)%nat).
  { induction Hw as [now|w e w' effects Hw IH Hs]; [reflexivity|].
    destruct (step_effect _ _ Hs)
      as [(_ & _ & Hl & Hp)
         |[(d & p & now & _ & _ & _ & _ & Hl & Hl' & Hp)
          |[(tree & now & g & _ & _ & Hl' & Hp & Hp')
           |[(g & _ & _ & Hl' & Hp & Hp')
            |(config & now & _ & _ & Hl & Hp & _)]]]].
    - now rewrite Hl, Hp.
    - rewrite Hl in IH. now rewrite Hl', Hp, IH.
    - rewrite Hl', Hp'. rewrite Hp in IH.
      destruct (isLoading (component w)); [congruence | discriminate].
    - rewrite Hl', Hp'. rewrite Hp in IH.
      destruct (isLoading (component w)); [congruence | discriminate].
    - now rewrite Hl, Hp. }
  split; [exact H|]. rewrite H.
  destruct (isLoading (component w)); lia.
Qed.

Lemma single_flight_witness :
  pending_generate
    (world_after [TypeInput (lit "hello"); SendMessage None None 1;
                  UiAction (lit "demo_list") 2;
                  SendMessage (Some (lit "again")) None 3])
  = (if isLoading
          (component
             (world_after [TypeInput (lit "hello"); SendMessage None None 1;
                           UiAction (lit "demo_list") 2;
                           SendMessage (Some (lit "again")) None 3]))
     then 1 else 0)%nat
  /\ (pending_generate
        (world_after [TypeInput (lit "hello"); SendMessage None None 1;
                      UiAction (lit "demo_list") 2;
                      SendMessage (Some (lit "again")) None 3])
      <= 1)%nat.
Proof.
  apply single_flight. apply world_after_reachable.
Defined.

(** ** The turns of a session *)

Lemma user_turns_app (l r : list ChatMessage) :
  user_turns (l ++ r) = (user_turns l + user_turns r)%nat.
Proof.
  unfold user_turns. now rewrite filter_app, length_app.
Qed.

Lemma generate_calls_app (l r : list Effect) :
  generate_calls (l ++ r) = (generate_calls l + generate_calls r)%nat.
Proof.
  unfold generate_calls. now rewrite filter_app, length_app.
Qed.

Lemma step_user_turns (w w' : World) (e : Event) (effects : list Effect) :
  step w e = Some (w', effects) ->
  user_turns (messages (component w'))
  = (user_turns (messages (component w)) + generate_calls effects)%nat.
Proof.
  intros Hs.
  destruct (step_effect _ _ Hs)
    as [(Hm & Hg & _)
       |[(d & p & now & Hm & He & _)
        |[(tree & now & g & Hm & He & _)
         |[(g & Hm & Hg & _)
          |(config & now & Hm & He & _)]]]];
    rewrite Hm; try rewrite user_turns_app;
    try (rewrite Hg; lia); rewrite He; cbv; lia.
Qed.

Lemma run_user_turns (events : list Event) (w w' : World)
    (effects : list Effect) :
  run w events = Some (w', effects) ->
  user_turns (messages (component w'))
  = (user_turns (messages (component w)) + generate_calls effects)%nat.
Proof.
  revert w effects. induction events as [|e r IH]; simpl; intros w effects H.
  - inversion H; subst. unfold generate_calls. simpl. lia.
  - destruct (step w e) as [[w1 effs1]|] eqn:Es; [|discriminate].
    destruct (run w1 r) as [[w2 effs2]|] eqn:Er; [|discriminate].
    inversion H; subst.
    rewrite (IH _ _ Er), (step_user_turns _ _ Es), generate_calls_app. lia.
Qed.

(** X4. Whatever happens in a session, the history holds as many user
    turns as calls of [generateResponse] were made: every call comes
    with its user turn, and no user turn is appended without a call. *)
Theorem user_turns_match_calls (now : Z) (events : list Event) (w : World)
    (effects : list Effect) :
  run (boot now) events = Some (w, effects) ->
  user_turns (messages (component w)) = generate_calls effects.
Proof.
  intros H. now rewrite (run_user_turns _ _ H).
Qed.

Lemma user_turns_match_calls_witness :
  user_turns (messages (component (world_after connect_then_send)))
  = generate_calls
      [genAiService_connect configured;
       genAiService_generateResponse (lit "hi")
         (map history_entry
              (messages (component (world_after connect_succeeded))))].
Proof.
  apply (@user_turns_match_calls 0 connect_then_send).
  vm_compute. reflexivity.
Defined.

Lemma step_appends_shaped (w w' : World) (e : Event)
    (effects : list Effect) :
  step w e = Some (w', effects) ->
  exists extra,
    messages (component w') = messages (component w) ++ extra
    /\ Forall turn_shape extra.
Proof.
  intros Hs.
  destruct (step_effect _ _ Hs)
    as [(Hm & _)
       |[(d & p & now & Hm & _ & Ht & Hd & _)
        |[(tree & now & g & Hm & _)
         |[(g & Hm & _)
          |(config & now & Hm & _)]]]].
  - exists []. now rewrite app_nil_r.
  - eexists. split; [exact Hm|]. repeat constructor.
    unfold turn_shape. simpl. exists d, p. repeat split; try assumption.
    rewrite truthy_trim in Ht. now destruct (forallb isWhiteSpace p).
  - eexists. split; [exact Hm|]. repeat constructor.
    unfold turn_shape. simpl. eauto.
  - exists []. now rewrite app_nil_r.
  - eexists. split; [exact Hm|]. repeat constructor.
    unfold turn_shape. simpl. eauto.
Qed.

(** X5. The history is append-only: after any sequence of events the
    turns that were there are still there, unchanged and in the same
    places, followed by the turns appended since. *)
Theorem run_appends (events : list Event) (w w' : World)
    (effects : list Effect) :
  run w events = Some (w', effects) ->
  exists extra,
    messages (component w') = messages (component w) ++ extra
    /\ (List.length (messages (component w))
        <= List.length (messages (component w')))%nat.
Proof.
  revert w effects. induction events as [|e r IH]; simpl; intros w effects H.
  - inversion H; subst. exists []. rewrite app_nil_r. split; [reflexivity|].
    apply Nat.le_refl.
  - destruct (step w e) as [[w1 effs1]|] eqn:Es; [|discriminate].
    destruct (run w1 r) as [[w2 effs2]|] eqn:Er; [|discriminate].
    inversion H; subst.
    destruct (step_appends_shaped _ _ Es) as (x & Hx & _).
    destruct (IH _ _ Er) as (y & Hy & _).
    exists (x ++ y). rewrite Hy, Hx, <- app_assoc. split; [reflexivity|].
    rewrite length_app. apply Nat.le_add_r.
Qed.

Lemma run_appends_witness :
  exists extra,
    messages (component (world_after connect_then_send))
    = messages (component (world_after connect_succeeded)) ++ extra
    /\ (List.length (messages (component (world_after connect_succeeded)))
        <= List.length
             (messages (component (world_after connect_then_send))))%nat.
Proof.
  apply (@run_appends [SendMessage (Some (lit "hi")) None 2]
           (world_after connect_succeeded)
           (world_after connect_then_send)
           [genAiService_generateResponse (lit "hi")
              (map history_entry
                   (messages (component (world_after connect_succeeded))))]).
  vm_compute. reflexivity.
Defined.

(** X6. In every state of a session each turn holds what its role
    asks for and nothing else: a user turn a display text that is not
    empty and a prompt that is not blank, and no tree; a model turn a
    tree, and neither text. *)
Theorem turns_well_shaped (w : World) :
  reachable w -> Forall turn_shape (messages (component w)).
Proof.
  induction 1 as [now|w e w' effects Hw IH Hs].
  - repeat constructor. unfold turn_shape. simpl. eauto.
  - destruct (step_appends_shaped _ _ Hs) as (extra & Hm & He).
    rewrite Hm. apply Forall_app. now split.
Qed.

Lemma turns_well_shaped_witness :
  Forall turn_shape (messages (component (world_after connect_then_send))).
Proof.
  apply turns_well_shaped. apply world_after_reachable.
Defined.

(** ** The connection *)

Lemma step_keeps_turn (w w' : World) (e : Event) (effects : list Effect)
    (m : ChatMessage) :
  step w e = Some (w', effects) ->
  In m (messages (component w)) -> In m (messages (component w')).
Proof.
  intros Hs Hin. destruct (step_appends_shaped _ _ Hs) as (extra & Hm & _).
  rewrite Hm. apply in_or_app. now left.
Qed.

Lemma reachable_connection (w : World) :
  reachable w ->
  (isConnecting (component w) = true -> pending_connect w <> [])
  /\ (connectionStatus (component w) = connected ->
      exists config now,
        In (model_turn (connected_message config) now)
           (messages (component w))).
Proof.
  induction 1 as [now|w e w' effects Hw [IH1 IH2] Hs].
  - split; simpl; discriminate.
  - destruct (step_connection _ _ Hs)
      as [(Hc & Hp & Hst)
         |[(config & Hc & Hp & Hst)
          |[(Hc & Hst)
           |(config & now & Hc & Hst & Hm)]]].
    + rewrite Hc, Hp, Hst. split; [exact IH1|].
      intros H. destruct (IH2 H) as (config & now & Hin).
      exists config, now. eapply step_keeps_turn; eassumption.
    + rewrite Hp, Hst. split; [|discriminate].
      intros _ E. now apply app_eq_nil in E as [_ E].
    + rewrite Hc, Hst. split; discriminate.
    + rewrite Hc, Hm. split; [discriminate|].
      intros _. exists config, now. apply in_or_app. right. now left.
Qed.

(** X7. The connecting flag is never left behind: whenever it is set,
    a call of [connect] is still pending. *)
Theorem connecting_has_pending_call (w : World) :
  reachable w ->
  isConnecting (component w) = true ->
  pending_connect w <> [].
Proof.
  intros Hw. now destruct (reachable_connection Hw).
Qed.

Lemma connecting_has_pending_call_witness :
  pending_connect (world_after connect_requested) <> [].
Proof.
  apply connecting_has_pending_call.
  - apply world_after_reachable.
  - reflexivity.
Defined.

(** X8. The status [connected] is only ever shown with its
    acknowledgement in the history: whenever the status is [connected],
    some model turn holds the tree that reports a successful
    connection. *)
Theorem connected_has_acknowledgement (w : World) :
  reachable w ->
  connectionStatus (component w) = connected ->
  exists config now,
    In (model_turn (connected_message config) now)
       (messages (component w)).
Proof.
  intros Hw. now destruct (reachable_connection Hw).
Qed.

Lemma connected_has_acknowledgement_witness :
  exists config now,
    In (model_turn (connected_message config) now)
       (messages (component (world_after connect_then_send))).
Proof.
  apply connected_has_acknowledgement.
  - apply world_after_reachable.
  - reflexivity.
Defined.

(** ** A send and its reply *)

(** X9. A send that passes its guard and is answered leaves the
    component idle, with an empty input, and with exactly two turns
    more than before: the user turn, then the model turn that holds the
    tree the agent returned.  The reply itself, in whatever state it
    arrives, appends that one model turn, clears [isLoading] and calls
    nothing. *)
Theorem sendMessage_answered (promptText displayText : option jsstring)
    (now later : Z) (uiResponse : A2UIComponent) (c : AppComponent) :
  truthy (trim (or_else promptText (userInput c))) = true ->
  isLoading c = false ->
  let textToSend := or_else promptText (userInput c) in
  let sent := fst (sendMessage promptText displayText now c) in
  let answered := fst (sendMessage_fulfilled uiResponse later sent) in
  messages answered
  = messages c
    ++ [user_turn (or_else displayText textToSend) textToSend now;
        model_turn uiResponse later]
  /\ isLoading answered = false
  /\ userInput answered = []
  /\ activeFormData answered = activeFormData c
  /\ (forall c' : AppComponent,
        messages (fst (sendMessage_fulfilled uiResponse later c'))
        = messages c' ++ [model_turn uiResponse later]
        /\ isLoading (fst (sendMessage_fulfilled uiResponse later c')) = false
        /\ snd (sendMessage_fulfilled uiResponse later c') = []).
Proof.
  intros Ht Hl textToSend sent answered.
  unfold answered, sent, textToSend.
  rewrite sendMessage_proceeds by assumption. simpl.
  rewrite <- app_assoc. repeat split.
Qed.

Lemma sendMessage_answered_witness :
  messages
    (fst (sendMessage_fulfilled greeting 2
            (fst (sendMessage None None 1 (component typed_hello)))))
  = messages (component typed_hello)
    ++ [user_turn (lit "hello") (lit "hello") 1; model_turn greeting 2]
  /\ isLoading
       (fst (sendMessage_fulfilled greeting 2
               (fst (sendMessage None None 1 (component typed_hello)))))
     = false
  /\ userInput
       (fst (sendMessage_fulfilled greeting 2
               (fst (sendMessage None None 1 (component typed_hello)))))
     = []
  /\ activeFormData
       (fst (sendMessage_fulfilled greeting 2
               (fst (sendMessage None None 1 (component typed_hello)))))
     = activeFormData (component typed_hello)
  /\ (forall c' : AppComponent,
        messages (fst (sendMessage_fulfilled greeting 2 c'))
        = messages c' ++ [model_turn greeting 2]
        /\ isLoading (fst (sendMessage_fulfilled greeting 2 c')) = false
        /\ snd (sendMessage_fulfilled greeting 2 c') = []).
Proof.
  exact (@sendMessage_answered None None 1 2 greeting
           (component typed_hello) eq_refl eq_refl).
Defined.

(** X10. While no send is in flight, every action other than
    [open_settings] is sent, whatever its id and whatever the form
    holds: the prompt it composes is never blank, so exactly one user
    turn is appended, exactly one call of [generateResponse] is made
    with that prompt and the history before the turn, [isLoading] is
    set and the form data is empty. *)
Theorem handleUiAction_idle_sends (actionId : jsstring) (now : Z)
    (c : AppComponent) :
  actionId <> lit "open_settings" ->
  isLoading c = false ->
  exists display prompt,
    messages (fst (handleUiAction actionId now c))
    = messages c ++ [user_turn display prompt now]
    /\ snd (handleUiAction actionId now c)
       = [genAiService_generateResponse prompt
            (map history_entry (messages c))]
    /\ forallb isWhiteSpace prompt = false
    /\ isLoading (fst (handleUiAction actionId now c)) = true
    /\ activeFormData (fst (handleUiAction actionId now c)) = [].
Proof.
  intros Ha Hl.
  destruct (handleUiAction_sends_prompt now c Ha) as (p & d & -> & Ht).
  assert (Hp : or_else (Some p) (userInput (set_activeFormData [] c)) = p).
  { simpl. now rewrite (truthy_of_trim _ Ht). }
  rewrite sendMessage_proceeds; [|now rewrite Hp | exact Hl].
  rewrite Hp. simpl. exists (or_else (Some d) p), p. repeat split.
  rewrite truthy_trim in Ht. now destruct (forallb isWhiteSpace p).
Qed.

Lemma handleUiAction_idle_sends_witness :
  exists display prompt,
    messages (fst (handleUiAction [] 7 order_form))
    = messages order_form ++ [user_turn display prompt 7]
    /\ snd (handleUiAction [] 7 order_form)
       = [genAiService_generateResponse prompt
            (map history_entry (messages order_form))]
    /\ forallb isWhiteSpace prompt = false
    /\ isLoading (fst (handleUiAction [] 7 order_form)) = true
    /\ activeFormData (fst (handleUiAction [] 7 order_form)) = [].
Proof.
  apply (@handleUiAction_idle_sends [] 7 order_form).
  - vm_compute. discriminate.
  - reflexivity.
Defined.

(** X11. A send that passes its guard empties the input, so a send
    with no prompt of its own that follows it does nothing, whether it
    comes before the reply, after the reply or after a failure: no
    second turn, no second call. *)
Theorem sendMessage_not_repeated (promptText displayText : option jsstring)
    (now : Z) (c : AppComponent) :
  truthy (trim (or_else promptText (userInput c))) = true ->
  isLoading c = false ->
  let sent := fst (sendMessage promptText displayText now c) in
  (forall d t, sendMessage None d t sent = (sent, []))
  /\ (forall tree later d t,
        sendMessage None d t (fst (sendMessage_fulfilled tree later sent))
        = (fst (sendMessage_fulfilled tree later sent), []))
  /\ (forall d t,
        sendMessage None d t (fst (sendMessage_rejected sent))
        = (fst (sendMessage_rejected sent), [])).
Proof.
  intros Ht Hl sent. unfold sent.
  rewrite sendMessage_proceeds by assumption. simpl.
  repeat split; intros; apply sendMessage_returns; left; reflexivity.
Qed.

Lemma sendMessage_not_repeated_witness :
  (forall d t,
     sendMessage None d t (fst (sendMessage None None 1 (component typed_hello)))
     = (fst (sendMessage None None 1 (component typed_hello)), []))
  /\ (forall tree later d t,
        sendMessage None d t
          (fst (sendMessage_fulfilled tree later
                  (fst (sendMessage None None 1 (component typed_hello)))))
        = (fst (sendMessage_fulfilled tree later
                  (fst (sendMessage None None 1 (component typed_hello)))),
           []))
  /\ (forall d t,
        sendMessage None d t
          (fst (sendMessage_rejected
                  (fst (sendMessage None None 1 (component typed_hello)))))
        = (fst (sendMessage_rejected
                  (fst (sendMessage None None 1 (component typed_hello)))),
           [])).
Proof.
  exact (@sendMessage_not_repeated None None 1 (component typed_hello)
           eq_refl eq_refl).
Defined.

(** ** Connecting again *)

(** X12. With the four required fields filled in, [connectAgent] calls
    the agent client once, with the values of the form, sets the
    connecting flag and shows the status [disconnected]; a rejection
    leaves the form and the settings panel as they are, so connecting
    again makes the very same call. *)
Theorem connectAgent_retry (c : AppComponent) :
  form_invalid (configForm c) = false ->
  let config :=
    {| endpoint := endpoint (form_value (configForm c));
       api_key := api_key (form_value (configForm c));
       deployment_name := deployment_name (form_value (configForm c));
       api_version := api_version (form_value (configForm c));
       mcp_servers := mcp_servers (form_value (configForm c)) |} in
  let failed := fst (connectAgent_rejected (fst (connectAgent c))) in
  snd (connectAgent c) = [genAiService_connect config]
  /\ isConnecting (fst (connectAgent c)) = true
  /\ connectionStatus (fst (connectAgent c)) = disconnected
  /\ configForm failed = configForm c
  /\ isSettingsOpen failed = isSettingsOpen c
  /\ isConnecting failed = false
  /\ snd (connectAgent failed) = [genAiService_connect config].
Proof.
  intros H config failed. unfold failed, config, connectAgent.
  rewrite H. simpl. rewrite H. simpl.
  destruct (mcp_servers (form_value (configForm c))); repeat split.
Qed.

Lemma connectAgent_retry_witness :
  snd (connectAgent configured_form) = [genAiService_connect configured]
  /\ isConnecting (fst (connectAgent configured_form)) = true
  /\ connectionStatus (fst (connectAgent configured_form)) = disconnected
  /\ configForm
       (fst (connectAgent_rejected (fst (connectAgent configured_form))))
     = configForm configured_form
  /\ isSettingsOpen
       (fst (connectAgent_rejected (fst (connectAgent configured_form))))
     = isSettingsOpen configured_form
  /\ isConnecting
       (fst (connectAgent_rejected (fst (connectAgent configured_form))))
     = false
  /\ snd (connectAgent
            (fst (connectAgent_rejected (fst (connectAgent configured_form)))))
     = [genAiService_connect configured].
Proof.
  exact (@connectAgent_retry configured_form eq_refl).
Defined.

(** ** The fields a warning names *)

Lemma filter_keys_NoDup (V : Type) (q : jsstring * V -> bool)
    (o : JsObject V) :
  NoDup (map fst o) -> NoDup (map fst (filter q o)).
Proof.
  induction o as [|kv r IH]; simpl; intros H; [constructor|].
  inversion H as [|? ? Hn Hr]; subst.
  destruct (q kv); simpl; [|now apply IH].
  constructor; [|now apply IH].
  intros Hin. apply Hn. apply in_map_iff in Hin.
  destruct Hin as (kv' & Hf & Hin). apply filter_In in Hin.
  rewrite <- Hf. apply in_map. tauto.
Qed.

Lemma invalid_ids_read (c : AppComponent) (id : jsstring) :
  distinct_fields c ->
  In id (invalid_ids (Object_entries (activeFormData c)))
  <-> exists d, obj_get (activeFormData c) id = Some d /\ isValid d = false.
Proof.
  intros Hd. unfold invalid_ids. rewrite in_map_iff. split.
  - intros ([k d] & Hf & Hin). simpl in Hf. subst k.
    apply filter_In in Hin. destruct Hin as [Hin Hv]. simpl in Hv.
    exists d. split; [|now destruct (isValid d)].
    apply In_obj_get; [exact Hd|].
    eapply Permutation_in; [apply Object_entries_perm | exact Hin].
  - intros (d & Hg & Hv). exists (id, d). split; [reflexivity|].
    apply filter_In. simpl. rewrite Hv. split; [|reflexivity].
    eapply Permutation_in;
      [symmetry; apply Object_entries_perm | now apply obj_get_In].
Qed.

(** X13. For an action other than [open_settings] on form data that is
    not empty, the prompt [handleUiAction] hands to [sendMessage] is
    the action line and the submitted values followed by the warning
    line of a list of ids, and the display text ends with the invalid
    marker of the same list; that list holds exactly the ids whose
    field reads as invalid in the form data, each once and none left
    out, so the warning and the marker are there exactly when some
    field is invalid. *)
Theorem invalid_fields_listed (actionId : jsstring) (now : Z)
    (c : AppComponent) :
  actionId <> lit "open_settings" ->
  activeFormData c <> [] ->
  distinct_fields c ->
  let ids := invalid_ids (Object_entries (activeFormData c)) in
    handleUiAction actionId now c
    = sendMessage
        (Some
           (((lit "User triggered action: " ++ actionId ++ lit ".")
             ++ [10; 10] ++ lit "Submitted Form Data:" ++ [10]
             ++ stringify_space 2
                  (values_json
                     (fold_left
                        (fun values kv =>
                           assign_string values (fst kv) (value (snd kv)))
                        (Object_entries (activeFormData c)) [])))
            ++ warning_line ids))
        (Some
           (((lit "Triggered Action: " ++ actionId)
             ++ lit " (Submitted Data)")
            ++ invalid_marker ids))
        now (set_activeFormData [] c)
    /\ (forall id,
          In id ids
          <-> exists d, obj_get (activeFormData c) id = Some d
                        /\ isValid d = false)
    /\ NoDup ids
    /\ (ids = []
        <-> forall id d, obj_get (activeFormData c) id = Some d ->
                         isValid d = true).
Proof.
  intros Ha Hne Hd ids. unfold ids.
  split; [|split; [|split]].
  - unfold handleUiAction. apply jseq_false in Ha. rewrite Ha.
    rewrite (some_keys_some_data Hne).
    fold (invalid_ids (Object_entries (activeFormData c))).
    destruct (invalid_ids (Object_entries (activeFormData c))) as [|i r];
      cbn [List.length Nat.ltb Nat.leb warning_line invalid_marker];
      [now rewrite !app_nil_r | reflexivity].
  - intros id. now apply invalid_ids_read.
  - unfold invalid_ids. apply filter_keys_NoDup. now apply Object_keys_NoDup.
  - split.
    + intros He id d Hg. destruct (isValid d) eqn:Hv; [reflexivity|].
      assert (Hin : In id (invalid_ids (Object_entries (activeFormData c))))
        by (apply invalid_ids_read; eauto).
      rewrite He in Hin. destruct Hin.
    + intros Hall.
      destruct (invalid_ids (Object_entries (activeFormData c)))
        as [|i r] eqn:E; [reflexivity|].
      assert (Hin : In i (invalid_ids (Object_entries (activeFormData c))))
        by (rewrite E; now left).
      apply invalid_ids_read in Hin; [|exact Hd].
      destruct Hin as (d & Hg & Hv). rewrite (Hall _ _ Hg) in Hv.
      discriminate.
Qed.

Lemma invalid_fields_listed_witness :
  handleUiAction (lit "submit_order") 7 order_form
  = sendMessage
      (Some
         (lit "User triggered action: submit_order." ++ [10; 10]
          ++ lit "Submitted Form Data:" ++ [10]
          ++ lit "{" ++ [10]
          ++ requote (lit "  'name': 'foo',") ++ [10]
          ++ requote (lit "  'email': 'bad'") ++ [10]
          ++ lit "}" ++ [10; 10]
          ++ lit "Warning: The following fields have validation errors: email"))
      (Some
         (lit "Triggered Action: submit_order (Submitted Data)"
          ++ [32; 9888; 65039] ++ lit " Invalid Fields"))
      7 (set_activeFormData [] order_form)
  /\ (forall id,
        In id [lit "email"]
        <-> exists d, obj_get (activeFormData order_form) id = Some d
                      /\ isValid d = false)
  /\ NoDup [lit "email"]
  /\ ([lit "email"] = []
      <-> forall id d, obj_get (activeFormData order_form) id = Some d ->
                       isValid d = true).
Proof.
  refine (@invalid_fields_listed (lit "submit_order") 7 order_form _ _
            order_form_distinct).
  - vm_compute. discriminate.
  - vm_compute. discriminate.
Defined.

(** ** Actions without form data *)

Lemma handleUiAction_fallback (actionId : jsstring) (now : Z)
    (c : AppComponent) :
  actionId <> lit "open_settings" ->
  activeFormData c = [] ->
  handleUiAction actionId now c
  = sendMessage (Some (fst (fallback actionId)))
                (Some (snd (fallback actionId))) now c.
Proof.
  intros Ha He. apply jseq_false in Ha.
  unfold handleUiAction, fallback. rewrite Ha, He. simpl.
  repeat match goal with |- context [if ?b then _ else _] => destruct b end;
    reflexivity.
Qed.

(** X14. With no form data, what an action sends depends on its id
    alone: the three demo buttons send their fixed prompt and display
    text, any other id the generic [User triggered action: {id}.] shown
    as [Triggered Action: {id}], with nothing about submitted data, and
    while no send is in flight that pair is the user turn and the
    call. *)
Theorem handleUiAction_without_form (actionId : jsstring) (now : Z)
    (c : AppComponent) :
  actionId <> lit "open_settings" ->
  activeFormData c = [] ->
  handleUiAction actionId now c
  = sendMessage (Some (fst (fallback actionId)))
                (Some (snd (fallback actionId))) now c
  /\ (actionId <> lit "demo_product" -> actionId <> lit "demo_list" ->
      actionId <> lit "demo_servicenow" ->
      fallback actionId
      = (lit "User triggered action: " ++ actionId ++ lit ".",
         lit "Triggered Action: " ++ actionId))
  /\ (isLoading c = false ->
      messages (fst (handleUiAction actionId now c))
      = messages c ++ [user_turn (snd (fallback actionId))
                                 (fst (fallback actionId)) now]
      /\ snd (handleUiAction actionId now c)
         = [genAiService_generateResponse (fst (fallback actionId))
              (map history_entry (messages c))]).
Proof.
  intros Ha He. split; [now apply handleUiAction_fallback|]. split.
  { intros H1 H2 H3. unfold fallback.
    apply jseq_false in H1, H2, H3. now rewrite H1, H2, H3. }
  intros Hl. rewrite handleUiAction_fallback by assumption.
  assert (Hp : truthy (fst (fallback actionId)) = true
               /\ truthy (trim (fst (fallback actionId))) = true
               /\ truthy (snd (fallback actionId)) = true).
  { unfold fallback.
    repeat match goal with |- context [if ?b then _ else _] => destruct b end;
      rewrite truthy_trim; repeat split. }
  destruct Hp as (Hp1 & Hp2 & Hp3).
  assert (Hs : or_else (Some (fst (fallback actionId))) (userInput c)
               = fst (fallback actionId)) by (simpl; now rewrite Hp1).
  rewrite sendMessage_proceeds; [|now rewrite Hs | exact Hl].
  rewrite Hs. simpl. rewrite Hp3. split; reflexivity.
Qed.

Lemma handleUiAction_without_form_witness :
  handleUiAction (lit "refresh") 3 (constructor 0)
  = sendMessage (Some (fst (fallback (lit "refresh"))))
                (Some (snd (fallback (lit "refresh")))) 3 (constructor 0)
  /\ (lit "refresh" <> lit "demo_product" ->
      lit "refresh" <> lit "demo_list" ->
      lit "refresh" <> lit "demo_servicenow" ->
      fallback (lit "refresh")
      = (lit "User triggered action: " ++ lit "refresh" ++ lit ".",
         lit "Triggered Action: " ++ lit "refresh"))
  /\ (isLoading (constructor 0) = false ->
      messages (fst (handleUiAction (lit "refresh") 3 (constructor 0)))
      = messages (constructor 0)
        ++ [user_turn (snd (fallback (lit "refresh")))
                      (fst (fallback (lit "refresh"))) 3]
      /\ snd (handleUiAction (lit "refresh") 3 (constructor 0))
         = [genAiService_generateResponse (fst (fallback (lit "refresh")))
              (map history_entry (messages (constructor 0)))]).
Proof.
  apply (@handleUiAction_without_form (lit "refresh") 3 (constructor 0)).
  - vm_compute. discriminate.
  - reflexivity.
Defined.

(** X15. Form data is sent at most once: after any action other than
    [open_settings], a second such action with no change of a field in
    between sends the prompt of its id alone, whatever the form held
    before the first, and whether or not the first was sent. *)
Theorem handleUiAction_no_state_leak (first second : jsstring)
    (now later : Z) (c : AppComponent) :
  first <> lit "open_settings" ->
  second <> lit "open_settings" ->
  let c1 := fst (handleUiAction first now c) in
  handleUiAction second later c1
  = sendMessage (Some (fst (fallback second)))
                (Some (snd (fallback second))) later c1.
Proof.
  intros H1 H2 c1. apply handleUiAction_fallback; [exact H2|].
  unfold c1. destruct (handleUiAction_sends now c H1) as (p & d & ->).
  now rewrite sendMessage_activeFormData.
Qed.

Lemma handleUiAction_no_state_leak_witness :
  handleUiAction (lit "demo_list") 8
    (fst (handleUiAction (lit "submit_order") 7 order_form))
  = sendMessage (Some (fst (fallback (lit "demo_list"))))
                (Some (snd (fallback (lit "demo_list")))) 8
                (fst (handleUiAction (lit "submit_order") 7 order_form)).
Proof.
  apply (@handleUiAction_no_state_leak (lit "submit_order") (lit "demo_list")
           7 8 order_form).
  - vm_compute. discriminate.
  - vm_compute. discriminate.
Defined.

(** ** The settings panel *)

(** X16. [toggleSettings] changes the settings flag and nothing else,
    two toggles restore the component exactly, and a toggle closes the
    panel the action [open_settings] opened. *)
Theorem toggleSettings_twice (now : Z) (c : AppComponent) :
  toggleSettings (toggleSettings c) = c
  /\ isSettingsOpen
       (toggleSettings (fst (handleUiAction (lit "open_settings") now c)))
     = false
  /\ messages (toggleSettings c) = messages c
  /\ activeFormData (toggleSettings c) = activeFormData c
  /\ configForm (toggleSettings c) = configForm c.
Proof.
  split.
  { unfold toggleSettings. destruct c. simpl. now rewrite negb_involutive. }
  unfold handleUiAction. rewrite jseq_refl. repeat split.
Qed.

(** ** What the agent is told of earlier turns *)

Lemma no_calls_no_prompts (effects : list Effect) :
  generate_calls effects = 0%nat -> prompts_sent effects = [].
Proof.
  unfold generate_calls.
  induction effects as [|e r IH]; simpl; [reflexivity|].
  destruct e; simpl; try exact IH. discriminate.
Qed.

Lemma prompts_sent_app (l r : list Effect) :
  prompts_sent (l ++ r) = prompts_sent l ++ prompts_sent r.
Proof.
  induction l as [|e l IH]; simpl; [reflexivity|].
  destruct e; simpl; now rewrite IH.
Qed.

Lemma user_prompts_app (l r : list ChatMessage) :
  user_prompts (l ++ r) = user_prompts l ++ user_prompts r.
Proof.
  unfold user_prompts. now rewrite filter_app, map_app.
Qed.

Lemma step_user_prompts (w w' : World) (e : Event) (effects : list Effect) :
  step w e = Some (w', effects) ->
  user_prompts (messages (component w'))
  = user_prompts (messages (component w)) ++ map Some (prompts_sent effects).
Proof.
  intros Hs.
  destruct (step_effect _ _ Hs)
    as [(Hm & Hg & _)
       |[(d & p & now & Hm & He & _)
        |[(tree & now & g & Hm & He & _)
         |[(g & Hm & Hg & _)
          |(config & now & Hm & He & _)]]]];
    rewrite Hm.
  - rewrite (no_calls_no_prompts _ Hg). simpl. now rewrite app_nil_r.
  - rewrite user_prompts_app, He. reflexivity.
  - rewrite user_prompts_app, He. simpl. reflexivity.
  - rewrite (no_calls_no_prompts _ Hg). simpl. now rewrite app_nil_r.
  - rewrite user_prompts_app, He. simpl. reflexivity.
Qed.

Lemma run_user_prompts (events : list Event) (w w' : World)
    (effects : list Effect) :
  run w events = Some (w', effects) ->
  user_prompts (messages (component w'))
  = user_prompts (messages (component w)) ++ map Some (prompts_sent effects).
Proof.
  revert w effects. induction events as [|e r IH]; simpl; intros w effects H.
  - inversion H; subst. simpl. now rewrite app_nil_r.
  - destruct (step w e) as [[w1 effs1]|] eqn:Es; [|discriminate].
    destruct (run w1 r) as [[w2 effs2]|] eqn:Er; [|discriminate].
    inversion H; subst.
    rewrite (IH _ _ Er), (step_user_prompts _ _ Es), prompts_sent_app,
      map_app. now rewrite app_assoc.
Qed.

Lemma history_user_texts (l : list ChatMessage) :
  Forall turn_ok l ->
  user_texts (map history_entry l) = map (fun o => [o]) (user_prompts l).
Proof.
  unfold user_texts, user_prompts.
  induction 1 as [|m r Hm Hr IH]; simpl; [reflexivity|].
  unfold is_user_entry, is_user, turn_ok, history_entry in *. simpl.
  destruct (role m); simpl; [|exact IH].
  destruct Hm as (p & Hp & Ht). rewrite IH, Hp. simpl. now rewrite Ht.
Qed.

(** X17. The agent is told what was asked, not what was shown: the
    user entries of the history handed over by a send hold, in order,
    exactly the prompts given to [generateResponse] by all the earlier
    calls of the session, one text each. *)
Theorem history_holds_prompts (now : Z) (events : list Event) (w : World)
    (effects : list Effect) (p d : option jsstring) (t : Z)
    (textToSend : jsstring) (history : list HistoryEntry) :
  run (boot now) events = Some (w, effects) ->
  In (genAiService_generateResponse textToSend history)
     (snd (sendMessage p d t (component w))) ->
  user_texts history = map (fun q => [Some q]) (prompts_sent effects).
Proof.
  intros Hr Hin.
  assert (Hw : reachable w)
    by (eapply run_reachable; [apply reachable_boot | exact Hr]).
  destruct (reachable_invariant Hw) as (_ & Hok & _).
  destruct (sendMessage_cases p d t (component w)) as [E|(E & _ & _)];
    rewrite E in Hin; simpl in Hin; [tauto|].
  destruct Hin as [Hin|[]]. inversion Hin; subst.
  rewrite (history_user_texts Hok), (run_user_prompts _ _ Hr).
  simpl. now rewrite map_map.
Qed.

(** A first message shown as [Hello] and sent as [hi], its reply, and
    an action of the reply. *)
Lemma history_holds_prompts_witness :
  user_texts
    (map history_entry
         (messages
            (component
               (world_after
                  [SendMessage (Some (lit "hi")) (Some (lit "Hello")) 1;
                   GenerateFulfilled greeting 2;
                   UiAction (lit "demo_list") 3;
                   GenerateFulfilled greeting 4]))))
  = map (fun q => [Some q])
        [lit "hi";
         lit "Create a checklist of 5 things to do for a healthy morning routine."].
Proof.
  apply (@history_holds_prompts 0
           [SendMessage (Some (lit "hi")) (Some (lit "Hello")) 1;
            GenerateFulfilled greeting 2;
            UiAction (lit "demo_list") 3;
            GenerateFulfilled greeting 4]
           (world_after
              [SendMessage (Some (lit "hi")) (Some (lit "Hello")) 1;
               GenerateFulfilled greeting 2;
               UiAction (lit "demo_list") 3;
               GenerateFulfilled greeting 4])
           [genAiService_generateResponse (lit "hi")
              (map history_entry (messages (constructor 0)));
            genAiService_generateResponse
              (lit "Create a checklist of 5 things to do for a healthy morning routine.")
              (map history_entry
                 (messages
                    (component
                       (world_after
                          [SendMessage (Some (lit "hi")) (Some (lit "Hello")) 1;
                           GenerateFulfilled greeting 2]))))]
           (Some (lit "next")) None 5 (lit "next")).
  - vm_compute. reflexivity.
  - left. reflexivity.
Defined.
